(** * Git-to-Databricks pipeline: change detection and synchronisation

    A shallow embedding of [from-git-to-databricks.py]: the checksum
    tracker ([ChecksumTracker]), the uploader ([DatabricksUploader]) and
    the driver ([main]), followed by the properties of the fingerprint
    store and of the synchronisation loop.

    Conventions of the embedding.
    - A Python [str] is a list of Unicode code points ([pystr]).
    - A Python [Dict[str, str]] is an insertion-ordered association list
      with unique keys ([dict]).
    - A Python exception is a value of [exn]; code that may raise returns
      a [result].
    - What the script obtains from its environment (the process
      environment, the outcome of the git commands, the directory
      enumeration, file reads, HTTP responses, the content of the
      checksum file, write faults) is a field of the record [World].
    - A file on disk holds bytes; a text file is written and read
      through UTF-8 (the locale encoding is taken to be UTF-8), so that
      writing can fail on a string that cannot be encoded and reading on
      bytes that cannot be decoded. *)

From Stdlib.Strings Require Import String Ascii Byte.
From Stdlib Require Import List ZArith NArith Lia Bool Permutation Wf_nat.
Import ListNotations.

(* ================================================================= *)
(** ** Python strings *)

Definition pystr := list N.

(** Literals: each character of a Rocq string read as its code point. *)
Definition str (s : string) : pystr :=
  map N_of_ascii (list_ascii_of_string s).

Definition LF : N := 10.
Definition CR : N := 13.
Definition EQ : N := 61.
Definition SLASH : N := 47.

Definition pystr_eq_dec : forall a b : pystr, {a = b} + {a <> b} :=
  list_eq_dec N.eq_dec.

Definition pystr_eqb (a b : pystr) : bool :=
  if pystr_eq_dec a b then true else false.

(** [c in s] *)
Definition contains (c : N) (s : pystr) : bool := existsb (N.eqb c) s.

(** [str.isspace] on one code point (the Unicode white space of CPython). *)
Definition isspace (c : N) : bool :=
  (((9 <=? c) && (c <=? 13)) || ((28 <=? c) && (c <=? 32))
   || (c =? 133) || (c =? 160) || (c =? 5760)
   || ((8192 <=? c) && (c <=? 8202))
   || (c =? 8232) || (c =? 8233) || (c =? 8239) || (c =? 8287)
   || (c =? 12288))%N.

Fixpoint lstrip (s : pystr) : pystr :=
  match s with
  | [] => []
  | c :: s' => if isspace c then lstrip s' else s
  end.

Definition rstrip (s : pystr) : pystr := rev (lstrip (rev s)).

(** [s.strip()] *)
Definition strip (s : pystr) : pystr := rstrip (lstrip s).

(** [s.split("=", 1)]: one element when there is no separator, else the
    text before the first separator and the text after it. *)
Fixpoint split1 (sep : N) (s : pystr) : list pystr :=
  match s with
  | [] => [[]]
  | c :: s' =>
      if N.eqb c sep then [[]; s']
      else match split1 sep s' with
           | h :: t => (c :: h) :: t
           | [] => [[c]]
           end
  end.

(** [sep.join(parts)] *)
Fixpoint join (sep : pystr) (parts : list pystr) : pystr :=
  match parts with
  | [] => []
  | [p] => p
  | p :: rest => p ++ sep ++ join sep rest
  end.

(** [s.rstrip("/")] *)
Definition rstrip_slash (s : pystr) : pystr :=
  let fix drop (r : pystr) :=
    match r with
    | [] => []
    | c :: r' => if N.eqb c SLASH then drop r' else r
    end in
  rev (drop (rev s)).

(* ================================================================= *)
(** ** [hashlib.md5(...).hexdigest()] *)

Module MD5.

Local Open Scope Z_scope.

Definition mask32 (x : Z) : Z := x mod 2 ^ 32.

Definition rotl32 (x c : Z) : Z :=
  mask32 (Z.lor (Z.shiftl x c) (Z.shiftr x (32 - c))).

Definition not32 (x : Z) : Z := Z.lxor x 4294967295.

Definition K : list Z :=
  [ 3614090360; 3905402710; 606105819; 3250441966; 4118548399;
    1200080426; 2821735955; 4249261313; 1770035416; 2336552879;
    4294925233; 2304563134; 1804603682; 4254626195; 2792965006;
    1236535329; 4129170786; 3225465664; 643717713; 3921069994;
    3593408605; 38016083; 3634488961; 3889429448; 568446438;
    3275163606; 4107603335; 1163531501; 2850285829; 4243563512;
    1735328473; 2368359562; 4294588738; 2272392833; 1839030562;
    4259657740; 2763975236; 1272893353; 4139469664; 3200236656;
    681279174; 3936430074; 3572445317; 76029189; 3654602809;
    3873151461; 530742520; 3299628645; 4096336452; 1126891415;
    2878612391; 4237533241; 1700485571; 2399980690; 4293915773;
    2240044497; 1873313359; 4264355552; 2734768916; 1309151649;
    4149444226; 3174756917; 718787259; 3951481745 ].

Definition S : list Z :=
  [ 7; 12; 17; 22; 7; 12; 17; 22; 7; 12; 17; 22; 7; 12; 17; 22;
    5; 9; 14; 20; 5; 9; 14; 20; 5; 9; 14; 20; 5; 9; 14; 20;
    4; 11; 16; 23; 4; 11; 16; 23; 4; 11; 16; 23; 4; 11; 16; 23;
    6; 10; 15; 21; 6; 10; 15; 21; 6; 10; 15; 21; 6; 10; 15; 21 ].

(** Little-endian bytes of [x], [n] of them. *)
Fixpoint le_bytes (n : nat) (x : Z) : list Z :=
  match n with
  | O => []
  | Datatypes.S n' => (x mod 256) :: le_bytes n' (x / 256)
  end.

Definition pad (msg : list Z) : list Z :=
  let len := Z.of_nat (length msg) in
  msg ++ [128] ++ repeat 0 (Z.to_nat ((55 - len) mod 64))
      ++ le_bytes 8 ((8 * len) mod 2 ^ 64).

(** Little-endian 32-bit words of a byte sequence. *)
Fixpoint words (fuel : nat) (bs : list Z) : list Z :=
  match fuel, bs with
  | Datatypes.S f, b0 :: b1 :: b2 :: b3 :: rest =>
      (b0 + 256 * b1 + 65536 * b2 + 16777216 * b3) :: words f rest
  | _, _ => []
  end.

Definition state := (Z * Z * Z * Z)%type.

Definition step (M : list Z) (st : state) (i : nat) : state :=
  let '(A, B, C, D) := st in
  let iz := Z.of_nat i in
  let '(F, g) :=
    if iz <? 16 then
      (Z.lor (Z.land B C) (Z.land (not32 B) D), iz)
    else if iz <? 32 then
      (Z.lor (Z.land D B) (Z.land (not32 D) C), (5 * iz + 1) mod 16)
    else if iz <? 48 then
      (Z.lxor (Z.lxor B C) D, (3 * iz + 5) mod 16)
    else
      (Z.lxor C (Z.lor B (not32 D)), (7 * iz) mod 16) in
  let F' := mask32 (F + A + nth i K 0 + nth (Z.to_nat g) M 0) in
  (D, mask32 (B + rotl32 F' (nth i S 0)), B, C).

Definition chunk (st : state) (M : list Z) : state :=
  let '(a0, b0, c0, d0) := st in
  let '(A, B, C, D) := fold_left (step M) (seq 0 64) st in
  (mask32 (a0 + A), mask32 (b0 + B), mask32 (c0 + C), mask32 (d0 + D)).

Fixpoint chunks (fuel : nat) (ws : list Z) (st : state) : state :=
  match fuel, ws with
  | Datatypes.S f, _ :: _ => chunks f (skipn 16 ws) (chunk st (firstn 16 ws))
  | _, _ => st
  end.

Definition init : state := (1732584193, 4023233417, 2562383102, 271733878).

(** The sixteen bytes of the digest. *)
Definition digest (msg : list byte) : list Z :=
  let bs := pad (map (fun b => Z.of_N (Byte.to_N b)) msg) in
  let ws := words (length bs) bs in
  let '(a, b, c, d) := chunks (length ws) ws init in
  le_bytes 4 a ++ le_bytes 4 b ++ le_bytes 4 c ++ le_bytes 4 d.

(** A lower-case hexadecimal digit, as a code point. *)
Definition hexdigit (n : Z) : N :=
  let d := n mod 16 in
  if d <? 10 then Z.to_N (48 + d) else Z.to_N (87 + d).

Definition hexbyte (b : Z) : pystr :=
  [hexdigit (b / 16); hexdigit b].

Definition hexdigest (msg : list byte) : pystr :=
  flat_map hexbyte (digest msg).

End MD5.

Definition bytes_of (s : string) : list byte := list_byte_of_string s.

(* ================================================================= *)
(** ** Exceptions and results *)

(** The exception classes the script can meet.  [EnvironmentError],
    [IOError], [FileNotFoundError] and [PermissionError] are [OSError];
    the classes of [requests] are subclasses of
    [requests.RequestException], itself a subclass of [OSError]; the two
    Unicode errors are subclasses of [ValueError]. A
    [CalledProcessError] carries the bytes the command wrote to its
    standard error. *)
Inductive exn : Type :=
| OSError
| KeyError
| ValueError
| UnicodeEncodeError
| UnicodeDecodeError
| CalledProcessError (stderr : list N)
| ConnectionError
| Timeout
| HTTPError.

(** [isinstance(e, requests.RequestException)] *)
Definition is_RequestException (e : exn) : bool :=
  match e with
  | ConnectionError | Timeout | HTTPError => true
  | _ => false
  end.

(** [isinstance(e, EnvironmentError)] *)
Definition is_EnvironmentError (e : exn) : bool :=
  match e with
  | OSError => true
  | _ => is_RequestException e
  end.

(** [isinstance(e, subprocess.CalledProcessError)] *)
Definition is_CalledProcessError (e : exn) : bool :=
  match e with
  | CalledProcessError _ => true
  | _ => false
  end.

Inductive result (A : Type) : Type :=
| Return (a : A)
| Raise (e : exn).

Arguments Return {A} a.
Arguments Raise {A} e.

Definition bind {A B : Type} (r : result A) (k : A -> result B) : result B :=
  match r with
  | Return a => k a
  | Raise e => Raise e
  end.

Notation "x <- r ;; k" := (bind r (fun x => k))
  (at level 61, r at next level, right associativity).
Notation "r ;;; k" := (bind r (fun _ => k))
  (at level 61, right associativity).

(** [try: body  except cls: handler] *)
Definition try_except {A : Type} (body : result A) (cls : exn -> bool)
    (handler : result A) : result A :=
  match body with
  | Return a => Return a
  | Raise e => if cls e then handler else Raise e
  end.

(** A loop whose body may raise. *)
Fixpoint for_each {A S : Type} (body : S -> A -> result S) (l : list A)
    (s : S) : result S :=
  match l with
  | [] => Return s
  | a :: l' => s' <- body s a ;; for_each body l' s'
  end.

(** [try: body  except cls as e: handler] *)
Definition try_except_as {A : Type} (body : result A) (cls : exn -> bool)
    (handler : exn -> result A) : result A :=
  match body with
  | Return a => Return a
  | Raise e => if cls e then handler e else Raise e
  end.

(* ================================================================= *)
(** ** UTF-8 *)

(** The bytes of one code point; the surrogates have none. *)
Definition utf8_char (c : N) : result (list N) :=
  (if c <? 128 then Return [c]
   else if c <? 2048 then Return [192 + c / 64; 128 + c mod 64]
   else if c <? 65536 then
     if (55296 <=? c) && (c <=? 57343) then Raise UnicodeEncodeError
     else Return [224 + c / 4096; 128 + (c / 64) mod 64; 128 + c mod 64]
   else if c <? 1114112 then
     Return [240 + c / 262144; 128 + (c / 4096) mod 64;
             128 + (c / 64) mod 64; 128 + c mod 64]
   else Raise UnicodeEncodeError)%N.

(** [s.encode("utf-8")] *)
Fixpoint utf8_encode (s : pystr) : result (list N) :=
  match s with
  | [] => Return []
  | c :: s' => b <- utf8_char c ;; bs <- utf8_encode s' ;; Return (b ++ bs)
  end.

Definition continuation (b : N) : bool := ((128 <=? b) && (b <=? 191))%N.

(** [bs.decode("utf-8")]: no overlong form, no surrogate, nothing
    above U+10FFFF. *)
Fixpoint utf8_decode (bs : list N) : result pystr :=
  match bs with
  | [] => Return []
  | b0 :: r0 =>
      if (b0 <? 128)%N then s <- utf8_decode r0 ;; Return (b0 :: s)
      else if ((194 <=? b0) && (b0 <=? 223))%N then
        match r0 with
        | b1 :: r1 =>
            if continuation b1 then
              s <- utf8_decode r1 ;;
              Return (((b0 - 192) * 64 + (b1 - 128))%N :: s)
            else Raise UnicodeDecodeError
        | _ => Raise UnicodeDecodeError
        end
      else if ((224 <=? b0) && (b0 <=? 239))%N then
        match r0 with
        | b1 :: b2 :: r2 =>
            let c := ((b0 - 224) * 4096 + (b1 - 128) * 64 + (b2 - 128))%N in
            if continuation b1 && continuation b2 && (2048 <=? c)%N
               && negb ((55296 <=? c) && (c <=? 57343))%N then
              s <- utf8_decode r2 ;; Return (c :: s)
            else Raise UnicodeDecodeError
        | _ => Raise UnicodeDecodeError
        end
      else if ((240 <=? b0) && (b0 <=? 244))%N then
        match r0 with
        | b1 :: b2 :: b3 :: r3 =>
            let c := ((b0 - 240) * 262144 + (b1 - 128) * 4096
                      + (b2 - 128) * 64 + (b3 - 128))%N in
            if continuation b1 && continuation b2 && continuation b3
               && (65536 <=? c)%N && (c <=? 1114111)%N then
              s <- utf8_decode r3 ;; Return (c :: s)
            else Raise UnicodeDecodeError
        | _ => Raise UnicodeDecodeError
        end
      else Raise UnicodeDecodeError
  end.

(* ================================================================= *)
(** ** Dictionaries *)

(** [Dict[str, str]]: the items in insertion order, keys unique. *)
Definition dict := list (pystr * pystr).

Definition keys (d : dict) : list pystr := map fst d.

(** [d.get(k)] *)
Fixpoint dict_get (k : pystr) (d : dict) : option pystr :=
  match d with
  | [] => None
  | (k', v) :: d' => if pystr_eq_dec k' k then Some v else dict_get k d'
  end.

(** [d[k] = v]: an existing key keeps its place, a new one goes last. *)
Fixpoint dict_set (k v : pystr) (d : dict) : dict :=
  match d with
  | [] => [(k, v)]
  | (k', v') :: d' =>
      if pystr_eq_dec k' k then (k', v) :: d' else (k', v') :: dict_set k v d'
  end.

(* ================================================================= *)
(** ** Text files *)

(** Reading in text mode translates the line endings "\r\n" and "\r"
    to "\n" (universal newlines). *)
Fixpoint translate_newlines (s : pystr) : pystr :=
  match s with
  | [] => []
  | c :: s' =>
      if N.eqb c CR then
        LF :: match s' with
              | d :: s'' =>
                  if N.eqb d LF then translate_newlines s''
                  else translate_newlines s'
              | [] => []
              end
      else c :: translate_newlines s'
  end.

(** The lines of a text, each with its terminator. *)
Fixpoint keepends (s : pystr) : list pystr :=
  match s with
  | [] => []
  | c :: s' =>
      if N.eqb c LF then [LF] :: keepends s'
      else match keepends s' with
           | [] => [[c]]
           | l :: ls => (c :: l) :: ls
           end
  end.

(** [for line in f] on a file opened with mode "r". *)
Definition readlines (content : pystr) : list pystr :=
  keepends (translate_newlines content).

(** A file as the script finds or leaves it: not there, there but not
    to be opened for reading (a directory, no permission), or there with
    its bytes. *)
Inductive file_state : Type :=
| Missing
| Unopenable (e : exn)
| Bytes (content : list N).

(** What can go wrong while a file is written, apart from a string that
    cannot be encoded. [OpenFails]: the file cannot be opened for
    writing. [DiskFails n]: the device takes [n] bytes and no more. *)
Inductive fault : Type :=
| NoFault
| OpenFails
| DiskFails (n : nat).

(** A sequence of [f.write(line)] on an open text file: each line is
    encoded and appended to the buffer; a line that cannot be encoded
    raises, with the buffer as the lines before left it. *)
Fixpoint write_all (lines : list pystr) (buffer : list N)
    : result unit * list N :=
  match lines with
  | [] => (Return tt, buffer)
  | l :: ls =>
      match utf8_encode l with
      | Return b => write_all ls (buffer ++ b)
      | Raise e => (Raise e, buffer)
      end
  end.

(** Leaving the [with] block closes the file, which sends the buffer to
    the device; the device may stop in the middle, and the error of the
    device then replaces the outcome of the block. *)
Definition close (flt : fault) (r : result unit) (buffer : list N)
    : result unit * file_state :=
  match flt with
  | DiskFails n =>
      if (n <? length buffer)%nat
      then (Raise OSError, Bytes (firstn n buffer))
      else (r, Bytes buffer)
  | _ => (r, Bytes buffer)
  end.

(* ================================================================= *)
(** ** [ChecksumTracker] *)

Record ChecksumTracker : Type := {
  old_checksums : dict;
  new_checksums : dict
}.

(** One iteration of the loop of [_load]. *)
Definition load_line (old : dict) (line : pystr) : result dict :=
  if contains EQ line then
    match split1 EQ (strip line) with
    | [file_path; checksum] => Return (dict_set file_path checksum old)
    | _ => Raise ValueError
    end
  else Return old.

(** [_load]; the argument is the checksum file as it is on disk. *)
Definition _load (checksum_file : file_state) : result dict :=
  match checksum_file with
  | Missing => Return []
  | Unopenable e => Raise e
  | Bytes bytes =>
      content <- utf8_decode bytes ;;
      for_each load_line (readlines content) []
  end.

(** [ChecksumTracker(checksum_file)] *)
Definition ChecksumTracker_init (checksum_file : file_state)
    : result ChecksumTracker :=
  old <- _load checksum_file ;;
  Return {| old_checksums := old; new_checksums := [] |}.

(** The line written for one item. *)
Definition store_line (item : pystr * pystr) : pystr :=
  fst item ++ [EQ] ++ snd item ++ [LF].

(** The text of a whole store. *)
Definition store_text (d : dict) : pystr := concat (map store_line d).

(** [save]: takes and returns the state of the checksum file. Opening
    with mode "w" empties the file. *)
Definition save (flt : fault) (self : ChecksumTracker)
    (checksum_file : file_state) : result unit * file_state :=
  match flt with
  | OpenFails => (Raise OSError, checksum_file)
  | _ =>
      let (r, buffer) :=
        write_all (map store_line (new_checksums self)) [] in
      close flt r buffer
  end.

(** [get_checksum]; the argument is the outcome of reading the file. *)
Definition get_checksum (read : result (list byte)) : result pystr :=
  content <- read ;; Return (MD5.hexdigest content).

(** [has_changed]: the tracker after the call and the returned value. *)
Definition has_changed (self : ChecksumTracker)
    (relative_path checksum : pystr) : ChecksumTracker * bool :=
  let self' :=
    {| old_checksums := old_checksums self;
       new_checksums := dict_set relative_path checksum (new_checksums self) |} in
  let old := dict_get relative_path (old_checksums self') in
  (self',
   match old with
   | None => true
   | Some o => negb (pystr_eqb o checksum)
   end).

(* ================================================================= *)
(** ** Paths *)

(** [s.split("/")] *)
Fixpoint split_all (sep : N) (s : pystr) : list pystr :=
  match s with
  | [] => [[]]
  | c :: s' =>
      if N.eqb c sep then [] :: split_all sep s'
      else match split_all sep s' with
           | h :: t => (c :: h) :: t
           | [] => [[c]]
           end
  end.

(** A [pathlib.Path] is the tuple of its [parts]. *)
Definition Path := list pystr.

(** [Path(s)] on a POSIX system: empty and "." components are dropped;
    a leading slash is the root (two slashes exactly are kept as such). *)
Definition Path_of (s : pystr) : Path :=
  let comps :=
    filter (fun c => negb (pystr_eqb c [] || pystr_eqb c (str ".")))
           (split_all SLASH s) in
  match s with
  | 47%N :: 47%N :: 47%N :: _ => [SLASH] :: comps
  | 47%N :: 47%N :: _ => [SLASH; SLASH] :: comps
  | 47%N :: _ => [SLASH] :: comps
  | _ => comps
  end.

(** [str(p)] *)
Definition Path_str (p : Path) : pystr :=
  match p with
  | [] => str "."
  | root :: rest =>
      if contains SLASH root then root ++ join [SLASH] rest
      else join [SLASH] p
  end.

(* ================================================================= *)
(** ** The environment of a run *)

(** An entry that [rglob] yields under the local folder. *)
Record Entry : Type := {
  rel_parts : Path;                      (* its path below the folder *)
  is_file : bool;                        (* [file.is_file()] *)
  read_for_checksum : result (list byte);  (* the read of [get_checksum] *)
  read_for_upload : result (list byte)     (* the read of [upload_file] *)
}.

Record World : Type := {
  environ : pystr -> option pystr;       (* [os.environ.get], once [load_dotenv] ran *)
  mkdir_log_dir : result unit;           (* what [setup_logging] meets *)
  folder_exists : bool;                  (* [local_folder.exists()] *)
  subprocess_run : list pystr -> result unit;  (* [subprocess.run(..., check=True)] *)
  rglob : list Entry;                    (* [local_folder.rglob("*")], after the git step *)
  requests_put : pystr -> pystr -> list byte -> result Z;
                                         (* URL, token, body: the status code *)
  checksum_file : file_state;            (* the file [log_dir/.checksums] *)
  save_fault : fault
}.

(* ================================================================= *)
(** ** [get_config] *)

Record Config : Type := {
  github_repo : pystr;
  github_pat : pystr;
  databricks_host : pystr;
  databricks_token : pystr;
  branch_name : pystr;
  local_folder : Path;
  volume_path : pystr;
  log_dir : Path
}.

(** [os.environ[var]] *)
Definition environ_item (env : pystr -> option pystr) (var : pystr)
    : result pystr :=
  match env var with
  | Some v => Return v
  | None => Raise KeyError
  end.

(** [os.environ.get(var, default)] *)
Definition environ_get (env : pystr -> option pystr) (var default : pystr)
    : pystr :=
  match env var with
  | Some v => v
  | None => default
  end.

(** [not os.environ.get(var)] *)
Definition unset (env : pystr -> option pystr) (var : pystr) : bool :=
  match env var with
  | None => true
  | Some [] => true
  | Some (_ :: _) => false
  end.

Definition required : list pystr :=
  [str "GITHUB_REPO"; str "GITHUB_PAT"; str "DATABRICKS_HOST";
   str "DATABRICKS_TOKEN"].

Definition get_config (env : pystr -> option pystr) : result Config :=
  let missing := filter (unset env) required in
  match missing with
  | _ :: _ => Raise OSError
  | [] =>
      repo <- environ_item env (str "GITHUB_REPO") ;;
      pat <- environ_item env (str "GITHUB_PAT") ;;
      host <- environ_item env (str "DATABRICKS_HOST") ;;
      token <- environ_item env (str "DATABRICKS_TOKEN") ;;
      Return {|
        github_repo := repo;
        github_pat := pat;
        databricks_host := rstrip_slash host;
        databricks_token := token;
        branch_name := environ_get env (str "BRANCH_NAME") (str "main");
        local_folder := Path_of (environ_get env (str "LOCAL_FOLDER") (str "./repo"));
        volume_path :=
          environ_get env (str "VOLUME_PATH") (str "/Volumes/catalog/schema/volume");
        log_dir := Path_of (environ_get env (str "LOG_DIR") (str "./logs"))
      |}
  end.

(** [setup_logging]: creating the log directory and the log file can
    fail; the log itself is not modelled. *)
Definition setup_logging (w : World) (dir : Path) : result unit :=
  mkdir_log_dir w.

(* ================================================================= *)
(** ** [git_sync] *)

Definition git_sync (w : World) (config : Config) : result bool :=
  let repo_url :=
    str "https://" ++ github_pat config ++ str "@" ++ github_repo config in
  let folder := Path_str (local_folder config) in
  let branch := branch_name config in
  try_except_as
    ((if folder_exists w then
        subprocess_run w
          [str "git"; str "-C"; folder; str "remote"; str "set-url";
           str "origin"; repo_url] ;;;
        subprocess_run w
          [str "git"; str "-C"; folder; str "fetch"; str "origin"; branch] ;;;
        subprocess_run w
          [str "git"; str "-C"; folder; str "reset"; str "--hard";
           str "origin/" ++ branch]
      else
        subprocess_run w
          [str "git"; str "clone"; str "-b"; branch; str "--single-branch";
           str "--depth"; str "1"; repo_url; folder]) ;;;
     Return true)
    is_CalledProcessError
    (fun e =>
       (* the log line: e.stderr.decode() if e.stderr else str(e) *)
       match e with
       | CalledProcessError ((_ :: _) as stderr) =>
           utf8_decode stderr ;;; Return false
       | _ => Return false
       end).

(* ================================================================= *)
(** ** [DatabricksUploader] *)

Record DatabricksUploader : Type := {
  host : pystr;
  token : pystr;
  uploader_volume_path : pystr
}.

(** [DatabricksUploader(host, token, volume_path)] *)
Definition DatabricksUploader_init (h t v : pystr) : DatabricksUploader :=
  {| host := h; token := t; uploader_volume_path := rstrip_slash v |}.

(** [response.raise_for_status()]: the client and server error codes
    raise [HTTPError], any other status passes. *)
Definition raise_for_status (status_code : Z) : result unit :=
  if ((400 <=? status_code) && (status_code <? 600))%Z then Raise HTTPError
  else Return tt.

Definition upload_file (w : World) (self : DatabricksUploader)
    (local_file : Entry) (relative_path : pystr) : result bool :=
  try_except
    (let upload_url :=
       host self ++ str "/api/2.0/fs/files" ++ uploader_volume_path self
            ++ str "/" ++ relative_path in
     file_content <- read_for_upload local_file ;;
     response <- requests_put w upload_url (token self) file_content ;;
     raise_for_status response ;;;
     Return true)
    is_RequestException
    (Return false).

(* ================================================================= *)
(** ** The loop of [main] *)

Record Counters : Type := {
  uploaded : Z;
  skipped : Z;
  failed : Z
}.

(** The variables of the loop: the tracker object and the counters. *)
Record LoopState : Type := {
  tracker : ChecksumTracker;
  counts : Counters
}.

Definition zero : Counters := {| uploaded := 0; skipped := 0; failed := 0 |}.

(** [file.parts] *)
Definition parts (config : Config) (file : Entry) : Path :=
  local_folder config ++ rel_parts file.

(** The test at the head of the loop body: a regular file outside [.git]. *)
Definition visited (config : Config) (file : Entry) : bool :=
  negb (negb (is_file file) || existsb (pystr_eqb (str ".git")) (parts config file)).

(** [str(file.relative_to(config["local_folder"]))] *)
Definition relative_path (file : Entry) : pystr :=
  match rel_parts file with
  | [] => str "."
  | ps => join [SLASH] ps
  end.

(** One iteration: the state it leaves, and the exception if it raised. *)
Definition visit (w : World) (config : Config) (uploader : DatabricksUploader)
    (st : LoopState) (file : Entry) : result unit * LoopState :=
  if negb (is_file file) || existsb (pystr_eqb (str ".git")) (parts config file)
  then (Return tt, st)
  else
    let relative_path := relative_path file in
    match get_checksum (read_for_checksum file) with
    | Raise e => (Raise e, st)
    | Return checksum =>
        let (tr, changed) := has_changed (tracker st) relative_path checksum in
        let c := counts st in
        if changed then
          match upload_file w uploader file relative_path with
          | Raise e => (Raise e, {| tracker := tr; counts := c |})
          | Return true =>
              (Return tt,
               {| tracker := tr;
                  counts := {| uploaded := uploaded c + 1;
                               skipped := skipped c;
                               failed := failed c |} |})
          | Return false =>
              (Return tt,
               {| tracker := tr;
                  counts := {| uploaded := uploaded c;
                               skipped := skipped c;
                               failed := failed c + 1 |} |})
          end
        else
          (Return tt,
           {| tracker := tr;
              counts := {| uploaded := uploaded c;
                           skipped := skipped c + 1;
                           failed := failed c |} |})
    end.

(** [for file in config["local_folder"].rglob("*"): ...] *)
Fixpoint walk (w : World) (config : Config) (uploader : DatabricksUploader)
    (files : list Entry) (st : LoopState) : result unit * LoopState :=
  match files with
  | [] => (Return tt, st)
  | file :: rest =>
      match visit w config uploader st file with
      | (Return _, st') => walk w config uploader rest st'
      | (Raise e, st') => (Raise e, st')
      end
  end.

(* ================================================================= *)
(** ** [main] *)

(** How the process ends: [sys.exit(code)] or falling off the end of
    [main] ([Exit 0]), or an exception nobody catches. *)
Inductive exit_status : Type :=
| Exit (code : Z)
| Uncaught (e : exn).

(** The interpreter exits with status 1 on an uncaught exception. *)
Definition exit_code (s : exit_status) : Z :=
  match s with
  | Exit code => code
  | Uncaught _ => 1
  end.

(** What a run leaves behind. *)
Record Outcome : Type := {
  status : exit_status;
  file_after : file_state;          (* the checksum file after the run *)
  loop_state : option LoopState;    (* the loop variables when the loop stopped *)
  summary : option Counters         (* the counters of the final log line *)
}.

Definition stop (w : World) (s : exit_status) : Outcome :=
  {| status := s; file_after := checksum_file w;
     loop_state := None; summary := None |}.

Definition main (w : World) : Outcome :=
  match get_config (environ w) with
  | Raise e =>
      if is_EnvironmentError e then stop w (Exit 1) else stop w (Uncaught e)
  | Return config =>
  match setup_logging w (log_dir config) with
  | Raise e => stop w (Uncaught e)
  | Return _ =>
  match git_sync w config with
  | Raise e => stop w (Uncaught e)
  | Return false => stop w (Exit 1)
  | Return true =>
  match ChecksumTracker_init (checksum_file w) with
  | Raise e => stop w (Uncaught e)
  | Return tracker0 =>
  let uploader :=
    DatabricksUploader_init (databricks_host config) (databricks_token config)
                            (volume_path config) in
  match walk w config uploader (rglob w)
             {| tracker := tracker0; counts := zero |} with
  | (Raise e, st) =>
      {| status := Uncaught e; file_after := checksum_file w;
         loop_state := Some st; summary := None |}
  | (Return _, st) =>
  match save (save_fault w) (tracker st) (checksum_file w) with
  | (Raise e, file) =>
      {| status := Uncaught e; file_after := file;
         loop_state := Some st; summary := None |}
  | (Return _, file) =>
      {| status := if (failed (counts st) >? 0)%Z then Exit 1 else Exit 0;
         file_after := file;
         loop_state := Some st;
         summary := Some (counts st) |}
  end end end end end end.

(* ================================================================= *)
(** ** Sample runs *)

Module Samples.

(** The four required variables set, the optional ones left out. *)
Definition env (var : pystr) : option pystr :=
  if pystr_eqb var (str "GITHUB_REPO") then Some (str "github.com/user/repo.git")
  else if pystr_eqb var (str "GITHUB_PAT") then Some (str "pat")
  else if pystr_eqb var (str "DATABRICKS_HOST") then Some (str "https://dbx.example/")
  else if pystr_eqb var (str "DATABRICKS_TOKEN") then Some (str "token")
  else None.

Definition config : Config :=
  {| github_repo := str "github.com/user/repo.git";
     github_pat := str "pat";
     databricks_host := str "https://dbx.example";
     databricks_token := str "token";
     branch_name := str "main";
     local_folder := [str "repo"];
     volume_path := str "/Volumes/catalog/schema/volume";
     log_dir := [str "logs"] |}.

(** A readable regular file. *)
Definition file (name : string) (content : string) : Entry :=
  {| rel_parts := [str name]; is_file := true;
     read_for_checksum := Return (bytes_of content);
     read_for_upload := Return (bytes_of content) |}.

(** A regular file that cannot be read. *)
Definition unreadable (name : string) : Entry :=
  {| rel_parts := [str name]; is_file := true;
     read_for_checksum := Raise OSError;
     read_for_upload := Raise OSError |}.

(** A regular file that disappears after its checksum was taken. *)
Definition vanishing (name : string) (content : string) : Entry :=
  {| rel_parts := [str name]; is_file := true;
     read_for_checksum := Return (bytes_of content);
     read_for_upload := Raise OSError |}.

Definition directory (name : string) : Entry :=
  {| rel_parts := [str name]; is_file := false;
     read_for_checksum := Raise OSError;
     read_for_upload := Raise OSError |}.

Definition git_object : Entry :=
  {| rel_parts := [str ".git"; str "HEAD"]; is_file := true;
     read_for_checksum := Return (bytes_of "ref: refs/heads/main");
     read_for_upload := Return (bytes_of "ref: refs/heads/main") |}.

(** A world where git and logging work and every request is answered
    with [status]. *)
Definition world (tree : list Entry) (store : file_state)
    (put : result Z) (flt : fault) : World :=
  {| environ := env;
     mkdir_log_dir := Return tt;
     folder_exists := true;
     subprocess_run := fun _ => Return tt;
     rglob := tree;
     requests_put := fun _ _ _ => put;
     checksum_file := store;
     save_fault := flt |}.

Definition md5_of_empty : pystr := str "d41d8cd98f00b204e9800998ecf8427e".
Definition md5_of_hi : pystr := str "49f68a5c8493ec2c0bf489821c21fc3b".

Definition nl : pystr := [LF].

End Samples.

(* ================================================================= *)
(** ** Vocabulary of the properties *)

(** What the parser needs of a path and of a fingerprint: no separator
    in the path, no line ending (LF or CR) in either, no white space
    before the path or after the fingerprint. *)
Definition path_parses (p : pystr) : Prop :=
  ~ In EQ p /\ ~ In LF p /\ ~ In CR p /\ lstrip p = p.

Definition fingerprint_parses (c : pystr) : Prop :=
  ~ In LF c /\ ~ In CR c /\ rstrip c = c.

Definition item_parses (item : pystr * pystr) : Prop :=
  path_parses (fst item) /\ fingerprint_parses (snd item).

(** No newline: none of the characters that end a line of a text file,
    line feed and carriage return. *)
Definition no_newline (s : pystr) : Prop := ~ In LF s /\ ~ In CR s.

(** No leading or trailing white space: [s.strip() == s], side by side. *)
Definition no_surrounding_space (s : pystr) : Prop :=
  lstrip s = s /\ rstrip s = s.

Definition well_formed_path (p : pystr) : Prop :=
  p <> [] /\ ~ In EQ p /\ no_newline p /\ no_surrounding_space p.

Definition well_formed_fingerprint (c : pystr) : Prop :=
  no_newline c /\ no_surrounding_space c.

Definition well_formed_item (item : pystr * pystr) : Prop :=
  well_formed_path (fst item) /\ well_formed_fingerprint (snd item).

(** The loop of [_load], on the text of the file. *)
Definition load_text (content : pystr) : result dict :=
  for_each load_line (readlines content) [].

(** The previous mapping of a run: what [_load] returns. *)
Definition loaded (file : file_state) : dict :=
  match _load file with
  | Return old => old
  | Raise _ => []
  end.

(** A tracker in the middle of a run, for the examples. *)
Definition sample_tracker : ChecksumTracker :=
  {| old_checksums := [(str "a.txt", Samples.md5_of_hi)];
     new_checksums := [(str "a.txt", Samples.md5_of_empty);
                       (str "b.txt", Samples.md5_of_hi)] |}.

(** The relative paths of the files a walk visits. *)
Definition visited_paths (config : Config) (files : list Entry) : list pystr :=
  map relative_path (filter (visited config) files).

(** The change signal as a function of the previous mapping. *)
Definition differs (old : dict) (path checksum : pystr) : bool :=
  match dict_get path old with
  | None => true
  | Some o => negb (pystr_eqb o checksum)
  end.

Definition bump_uploaded (c : Counters) : Counters :=
  {| uploaded := uploaded c + 1; skipped := skipped c; failed := failed c |}.

Definition bump_skipped (c : Counters) : Counters :=
  {| uploaded := uploaded c; skipped := skipped c + 1; failed := failed c |}.

Definition bump_failed (c : Counters) : Counters :=
  {| uploaded := uploaded c; skipped := skipped c; failed := failed c + 1 |}.

(** The tracker once [has_changed] stored a fingerprint. *)
Definition recorded (t : ChecksumTracker) (path checksum : pystr)
    : ChecksumTracker :=
  {| old_checksums := old_checksums t;
     new_checksums := dict_set path checksum (new_checksums t) |}.

(** The ways one iteration of the loop can go. *)
Inductive visit_case (w : World) (config : Config) (u : DatabricksUploader)
    (st : LoopState) (file : Entry) : result unit * LoopState -> Prop :=
| case_ignored :
    visited config file = false ->
    visit_case w config u st file (Return tt, st)
| case_unreadable e :
    visited config file = true ->
    get_checksum (read_for_checksum file) = Raise e ->
    visit_case w config u st file (Raise e, st)
| case_unchanged c :
    visited config file = true ->
    get_checksum (read_for_checksum file) = Return c ->
    differs (old_checksums (tracker st)) (relative_path file) c = false ->
    visit_case w config u st file
      (Return tt,
       {| tracker := recorded (tracker st) (relative_path file) c;
          counts := bump_skipped (counts st) |})
| case_uploaded c :
    visited config file = true ->
    get_checksum (read_for_checksum file) = Return c ->
    differs (old_checksums (tracker st)) (relative_path file) c = true ->
    upload_file w u file (relative_path file) = Return true ->
    visit_case w config u st file
      (Return tt,
       {| tracker := recorded (tracker st) (relative_path file) c;
          counts := bump_uploaded (counts st) |})
| case_failed c :
    visited config file = true ->
    get_checksum (read_for_checksum file) = Return c ->
    differs (old_checksums (tracker st)) (relative_path file) c = true ->
    upload_file w u file (relative_path file) = Return false ->
    visit_case w config u st file
      (Return tt,
       {| tracker := recorded (tracker st) (relative_path file) c;
          counts := bump_failed (counts st) |})
| case_upload_raised c e :
    visited config file = true ->
    get_checksum (read_for_checksum file) = Return c ->
    differs (old_checksums (tracker st)) (relative_path file) c = true ->
    upload_file w u file (relative_path file) = Raise e ->
    visit_case w config u st file
      (Raise e,
       {| tracker := recorded (tracker st) (relative_path file) c;
          counts := counts st |}).

(** The sum of the three counters. *)
Definition total (c : Counters) : Z := uploaded c + skipped c + failed c.

(** The uploader and the loop variables [main] starts the walk with. *)
Definition uploader_of (config : Config) : DatabricksUploader :=
  DatabricksUploader_init (databricks_host config) (databricks_token config)
                          (volume_path config).

Definition start (w : World) : LoopState :=
  {| tracker := {| old_checksums := loaded (checksum_file w);
                   new_checksums := [] |};
     counts := zero |}.

(** The walk of a run. *)
Definition the_walk (w : World) (config : Config) : result unit * LoopState :=
  walk w config (uploader_of config) (rglob w) (start w).

(** The run gets as far as the loop: the configuration is there, logging
    could be set up, [git_sync] returned true and the checksum file, if
    there is one, could be read. *)
Definition reaches_loop (w : World) (config : Config) : Prop :=
  get_config (environ w) = Return config
  /\ mkdir_log_dir w = Return tt
  /\ git_sync w config = Return true
  /\ _load (checksum_file w) = Return (loaded (checksum_file w)).

(** The address [upload_file] sends a file to. *)
Definition upload_url (self : DatabricksUploader) (relative_path : pystr)
    : pystr :=
  host self ++ str "/api/2.0/fs/files" ++ uploader_volume_path self
       ++ str "/" ++ relative_path.

(** The working tree is the same in two runs: the same entries, with
    the same content read for the checksum. *)
Definition same_file (e1 e2 : Entry) : Prop :=
  rel_parts e1 = rel_parts e2
  /\ is_file e1 = is_file e2
  /\ read_for_checksum e1 = read_for_checksum e2.

Definition same_tree (t1 t2 : list Entry) : Prop := Forall2 same_file t1 t2.

(** The sample worlds of the examples below. *)
Definition scenario : World :=
  Samples.world
    [Samples.directory "docs"; Samples.git_object;
     Samples.file "a.txt" ""; Samples.file "b.txt" "hi"]
    (Bytes (str "a.txt=" ++ Samples.md5_of_empty ++ Samples.nl))
    (Return 200%Z) NoFault.

Definition network_down : World :=
  Samples.world
    [Samples.file "a.txt" ""; Samples.file "b.txt" "hi"]
    (Bytes (str "a.txt=" ++ Samples.md5_of_empty ++ Samples.nl))
    (Raise ConnectionError) NoFault.

Definition interrupted_save : World :=
  Samples.world
    [Samples.file "a.txt" ""; Samples.file "b.txt" "hi"]
    (Bytes (str "a.txt=" ++ Samples.md5_of_hi ++ Samples.nl))
    (Return 200%Z) (DiskFails 40).

Definition unreadable_file : World :=
  Samples.world
    [Samples.file "a.txt" ""; Samples.unreadable "b.txt";
     Samples.file "c.txt" "hi"]
    (Bytes (str "a.txt=" ++ Samples.md5_of_empty ++ Samples.nl))
    (Return 200%Z) NoFault.


Definition first_run (name : string) : World :=
  Samples.world [Samples.file name ""] Missing (Return 200%Z) NoFault.

Definition second_run (name : string) : World :=
  Samples.world [Samples.file name ""] (file_after (main (first_run name)))
                (Return 200%Z) NoFault.

(** [gone.txt] was synchronised by an earlier run and has been deleted. *)
Definition deleted_file : World :=
  Samples.world
    [Samples.file "a.txt" ""]
    (Bytes (str "gone.txt=" ++ Samples.md5_of_hi ++ Samples.nl
           ++ str "a.txt=" ++ Samples.md5_of_empty ++ Samples.nl))
    (Return 200%Z) NoFault.


(** The git commands exit with a non-zero status. *)
Definition git_fails : World :=
  {| environ := Samples.env;
     mkdir_log_dir := Return tt;
     folder_exists := false;
     subprocess_run := fun _ => Raise (CalledProcessError (str "fatal: unable to access"));
     rglob := [];
     requests_put := fun _ _ _ => Return 200%Z;
     checksum_file := Missing;
     save_fault := NoFault |}.

(** What one line of the checksum file gives [_load]: the pair it
    stores, if the line has a separator. *)
Definition parse_line (line : pystr) : option (pystr * pystr) :=
  if contains EQ line then
    match split1 EQ (strip line) with
    | [file_path; checksum] => Some (file_path, checksum)
    | _ => None
    end
  else None.

(** The pairs of a checksum file, in the order of its lines. *)
Definition entries (content : pystr) : list (pystr * pystr) :=
  flat_map (fun line => match parse_line line with
                        | Some item => [item]
                        | None => []
                        end)
           (readlines content).

(** The value of the last pair with the given path. *)
Definition last_value (path : pystr) (items : list (pystr * pystr))
    : option pystr :=
  match find (fun item => pystr_eqb (fst item) path) (rev items) with
  | Some item => Some (snd item)
  | None => None
  end.

(** The variables [get_config] looks up. *)
Definition config_variables : list pystr :=
  required ++ [str "BRANCH_NAME"; str "LOCAL_FOLDER"; str "VOLUME_PATH";
               str "LOG_DIR"].

(** The git commands of [git_sync], in the order it runs them. *)
Definition git_commands (w : World) (config : Config) : list (list pystr) :=
  let repo_url :=
    str "https://" ++ github_pat config ++ str "@" ++ github_repo config in
  let folder := Path_str (local_folder config) in
  let branch := branch_name config in
  if folder_exists w then
    [ [str "git"; str "-C"; folder; str "remote"; str "set-url";
       str "origin"; repo_url];
      [str "git"; str "-C"; folder; str "fetch"; str "origin"; branch];
      [str "git"; str "-C"; folder; str "reset"; str "--hard";
       str "origin/" ++ branch] ]
  else
    [ [str "git"; str "clone"; str "-b"; branch; str "--single-branch";
       str "--depth"; str "1"; repo_url; folder] ].

(** The error of the first command that raises, if any. *)
Fixpoint first_error (w : World) (commands : list (list pystr)) : option exn :=
  match commands with
  | [] => None
  | args :: rest =>
      match subprocess_run w args with
      | Raise e => Some e
      | Return _ => first_error w rest
      end
  end.

(** A store file as a user may have edited it. *)
Definition edited_store : pystr :=
  str "# checksums" ++ [LF] ++ str "  x = y =z " ++ [CR; LF]
      ++ str "a.txt=" ++ Samples.md5_of_hi ++ [LF]
      ++ str "a.txt=" ++ Samples.md5_of_empty.

(** [Samples.env] with the variable of the docstring set as well. *)
Definition env_with_dbfs_path (var : pystr) : option pystr :=
  if pystr_eqb var (str "DBFS_PATH") then Some (str "/FileStore/sql-files")
  else Samples.env var.

(** The fingerprint [get_checksum] computes for a file ([""] stands in
    when the file cannot be read). *)
Definition fingerprint_of (file : Entry) : pystr :=
  match get_checksum (read_for_checksum file) with
  | Return c => c
  | Raise _ => []
  end.

(** The file differs from what the previous mapping holds. *)
Definition is_changed (old : dict) (file : Entry) : bool :=
  differs old (relative_path file) (fingerprint_of file).

(** [upload_file] returns [b] for the file. *)
Definition upload_returns (w : World) (u : DatabricksUploader) (file : Entry)
    (b : bool) : bool :=
  match upload_file w u file (relative_path file) with
  | Return x => Bool.eqb x b
  | Raise _ => false
  end.

(** The files that go to each counter. *)
Definition goes_to_uploaded (w : World) (config : Config)
    (u : DatabricksUploader) (old : dict) (file : Entry) : bool :=
  visited config file && is_changed old file && upload_returns w u file true.

Definition goes_to_failed (w : World) (config : Config)
    (u : DatabricksUploader) (old : dict) (file : Entry) : bool :=
  visited config file && is_changed old file && upload_returns w u file false.

Definition goes_to_skipped (config : Config) (old : dict) (file : Entry)
    : bool :=
  visited config file && negb (is_changed old file).

Definition count (p : Entry -> bool) (files : list Entry) : Z :=
  Z.of_nat (length (filter p files)).

(** The pending mapping a list of files builds up from [d]. *)
Definition record_all (config : Config) (files : list Entry) (d : dict)
    : dict :=
  fold_left (fun d file => dict_set (relative_path file) (fingerprint_of file) d)
            (filter (visited config) files) d.



(** The run after [network_down], on the same tree, the network back. *)
Definition network_back : World :=
  Samples.world
    [Samples.file "a.txt" ""; Samples.file "b.txt" "hi"]
    (file_after (main network_down))
    (Return 200%Z) NoFault.

(** The iteration on the file does not raise: the file is left out, or
    it can be read and, when it differs from the previous mapping, its
    upload returns. *)
Definition passes (w : World) (config : Config) (u : DatabricksUploader)
    (old : dict) (file : Entry) : bool :=
  negb (visited config file)
  || match get_checksum (read_for_checksum file) with
     | Raise _ => false
     | Return c =>
         negb (differs old (relative_path file) c)
         || match upload_file w u file (relative_path file) with
            | Return _ => true
            | Raise _ => false
            end
     end.

(** A code point UTF-8 can encode: not a surrogate, at most U+10FFFF. *)
Definition encodable (c : N) : bool :=
  ((c <? 55296) || ((57344 <=? c) && (c <? 1114112)))%N.

Definition encodable_item (item : pystr * pystr) : Prop :=
  forallb encodable (fst item) = true /\ forallb encodable (snd item) = true.

(** The bytes of a whole store ([[]] stands in when it cannot be
    encoded). *)
Definition store_bytes (d : dict) : list N :=
  match utf8_encode (store_text d) with
  | Return b => b
  | Raise _ => []
  end.

(** A file name that is not UTF-8 on disk reaches the script with a lone
    surrogate in it: here the byte 0x80 as U+DC80. *)
Definition surrogate_tracker : ChecksumTracker :=
  {| old_checksums := [];
     new_checksums := [(56448%N :: str ".txt", Samples.md5_of_empty)] |}.

(** [gone.txt] was synchronised by an earlier run and has been deleted;
    the tree now holds a file whose name has an '=' in it. *)
Definition stale_key : World :=
  Samples.world
    [Samples.file "gone.txt=x" ""]
    (Bytes (str "gone.txt=" ++ Samples.md5_of_hi ++ Samples.nl))
    (Return 200%Z) NoFault.


(** The git command fails and what it wrote to its error output is not
    UTF-8 (here one byte of Latin-1). *)
Definition git_fails_latin1 : World :=
  {| environ := Samples.env;
     mkdir_log_dir := Return tt;
     folder_exists := false;
     subprocess_run := fun _ => Raise (CalledProcessError [233%N]);
     rglob := [];
     requests_put := fun _ _ _ => Return 200%Z;
     checksum_file := Missing;
     save_fault := NoFault |}.

(* ================================================================= *)
(** * Properties *)

(** ** The digest on known inputs *)

Example md5_empty :
  MD5.hexdigest [] = str "d41d8cd98f00b204e9800998ecf8427e".
Proof. vm_compute. reflexivity. Qed.

Example md5_abc :
  MD5.hexdigest (bytes_of "abc") = str "900150983cd24fb0d6963f7d28e17f72".
Proof. vm_compute. reflexivity. Qed.

Example md5_hi :
  MD5.hexdigest (bytes_of "hi") = str "49f68a5c8493ec2c0bf489821c21fc3b".
Proof. vm_compute. reflexivity. Qed.

Example md5_two_blocks :
  MD5.hexdigest (repeat "y"%byte 64) = str "b0c4864f4e28d2d76929c38d87db7ed5".
Proof. vm_compute. reflexivity. Qed.

(** ** UTF-8 on known inputs *)

Example utf8_encode_samples :
  utf8_encode [233; 8364; 128512; 2047; 2048; 65535; 1114111]%N
  = Return [195; 169; 226; 130; 172; 240; 159; 152; 128; 223; 191;
            224; 160; 128; 239; 191; 191; 244; 143; 191; 191]%N
  /\ utf8_encode (str "a.txt") = Return (str "a.txt")
  /\ utf8_encode [56448]%N = Raise UnicodeEncodeError.
Proof. repeat split; vm_compute; reflexivity. Qed.

Example utf8_decode_samples :
  utf8_decode [195; 169; 226; 130; 172; 240; 159; 152; 128]%N
  = Return [233; 8364; 128512]%N
  /\ utf8_decode [192; 128]%N = Raise UnicodeDecodeError
  /\ utf8_decode [193; 191]%N = Raise UnicodeDecodeError
  /\ utf8_decode [224; 128; 128]%N = Raise UnicodeDecodeError
  /\ utf8_decode [237; 160; 128]%N = Raise UnicodeDecodeError
  /\ utf8_decode [240; 128; 128; 128]%N = Raise UnicodeDecodeError
  /\ utf8_decode [244; 144; 128; 128]%N = Raise UnicodeDecodeError
  /\ utf8_decode [245; 128; 128; 128]%N = Raise UnicodeDecodeError
  /\ utf8_decode [226; 130]%N = Raise UnicodeDecodeError
  /\ utf8_decode [128]%N = Raise UnicodeDecodeError
  /\ utf8_decode [255]%N = Raise UnicodeDecodeError.
Proof. repeat split; vm_compute; reflexivity. Qed.

(** ** Reading text and paths on known inputs *)

Example readlines_universal :
  readlines (str "a" ++ [CR] ++ str "b=ff" ++ [CR; LF] ++ str "c=1"
             ++ [LF; LF] ++ str "d=2")
  = [str "a" ++ [LF]; str "b=ff" ++ [LF]; str "c=1" ++ [LF]; [LF]; str "d=2"].
Proof. vm_compute. reflexivity. Qed.

Example load_sample :
  _load (Bytes (str "a" ++ [CR] ++ str "b=ff" ++ [CR; LF] ++ str "c=1"
               ++ [LF; LF] ++ str "d=2" ++ [LF] ++ str "c=3"))
  = Return [(str "b", str "ff"); (str "c", str "3"); (str "d", str "2")].
Proof. vm_compute. reflexivity. Qed.

Example load_line_strips :
  load_line [] (str "  x = y =z " ++ [LF]) = Return [(str "x ", str " y =z")].
Proof. vm_compute. reflexivity. Qed.

Example load_missing_file : _load Missing = Return [].
Proof. reflexivity. Qed.

Example path_of_samples :
  Path_of (str "./repo") = [str "repo"]
  /\ Path_of (str "/a//b/./c") = [str "/"; str "a"; str "b"; str "c"]
  /\ Path_of (str "//a/b") = [str "//"; str "a"; str "b"]
  /\ Path_of (str "///a") = [str "/"; str "a"]
  /\ Path_str (Path_of (str "/a//b/./c")) = str "/a/b/c"
  /\ Path_str (Path_of (str "./repo")) = str "repo".
Proof. repeat split; vm_compute; reflexivity. Qed.

(** ** The scenarios of the specification *)

Example get_config_sample : get_config Samples.env = Return Samples.config.
Proof. vm_compute. reflexivity. Qed.

(** The end-to-end scenario: an unchanged [a.txt] and a new [b.txt]. *)
Example end_to_end :
  main (Samples.world
          [Samples.directory "docs"; Samples.git_object;
           Samples.file "a.txt" ""; Samples.file "b.txt" "hi"]
          (Bytes (str "a.txt=" ++ Samples.md5_of_empty ++ Samples.nl))
          (Return 200%Z) NoFault)
  = {| status := Exit 0;
       file_after :=
         Bytes (str "a.txt=" ++ Samples.md5_of_empty ++ Samples.nl
               ++ str "b.txt=" ++ Samples.md5_of_hi ++ Samples.nl);
       loop_state :=
         Some {| tracker :=
                   {| old_checksums := [(str "a.txt", Samples.md5_of_empty)];
                      new_checksums := [(str "a.txt", Samples.md5_of_empty);
                                        (str "b.txt", Samples.md5_of_hi)] |};
                 counts := {| uploaded := 1; skipped := 1; failed := 0 |} |};
       summary := Some {| uploaded := 1; skipped := 1; failed := 0 |} |}.
Proof. vm_compute. reflexivity. Qed.

(** The failure scenario: the request for [b.txt] meets a network error. *)
Example failure_scenario :
  let out :=
    main (Samples.world
            [Samples.file "a.txt" ""; Samples.file "b.txt" "hi"]
            (Bytes (str "a.txt=" ++ Samples.md5_of_empty ++ Samples.nl))
            (Raise ConnectionError) NoFault) in
  summary out = Some {| uploaded := 0; skipped := 1; failed := 1 |}
  /\ exit_code (status out) = 1%Z
  /\ file_after out =
       Bytes (str "a.txt=" ++ Samples.md5_of_empty ++ Samples.nl
             ++ str "b.txt=" ++ Samples.md5_of_hi ++ Samples.nl).
Proof. vm_compute. repeat split; reflexivity. Qed.

(* ================================================================= *)
(** ** Facts about dictionaries *)

Section DictFacts.

Implicit Types (k q v : pystr) (d : dict).

Lemma pystr_eqb_eq (a b : pystr) : pystr_eqb a b = true <-> a = b.
Proof.
  unfold pystr_eqb. destruct (pystr_eq_dec a b); split; congruence.
Qed.

Lemma pystr_eqb_refl (a : pystr) : pystr_eqb a a = true.
Proof. now apply pystr_eqb_eq. Qed.

Lemma pystr_eqb_neq (a b : pystr) : pystr_eqb a b = false <-> a <> b.
Proof.
  unfold pystr_eqb. destruct (pystr_eq_dec a b); split; congruence.
Qed.

Lemma dict_get_set_same k v d : dict_get k (dict_set k v d) = Some v.
Proof.
  induction d as [|[k' v'] d IH]; simpl.
  - destruct (pystr_eq_dec k k); congruence.
  - destruct (pystr_eq_dec k' k) as [E|E]; simpl;
      destruct (pystr_eq_dec k' k); congruence.
Qed.

Lemma dict_get_set_other k q v d :
  q <> k -> dict_get q (dict_set k v d) = dict_get q d.
Proof.
  intros Hq. induction d as [|[k' v'] d IH]; simpl.
  - destruct (pystr_eq_dec k q); congruence.
  - destruct (pystr_eq_dec k' k) as [E|E]; simpl.
    + subst k'. destruct (pystr_eq_dec k q); congruence.
    + destruct (pystr_eq_dec k' q); congruence.
Qed.

Lemma dict_get_None k d : dict_get k d = None <-> ~ In k (keys d).
Proof.
  induction d as [|[k' v'] d IH]; simpl.
  - tauto.
  - destruct (pystr_eq_dec k' k) as [E|E].
    + split; [discriminate | intros H; exfalso; apply H; now left].
    + rewrite IH. tauto.
Qed.

Lemma dict_get_In k v d : dict_get k d = Some v -> In (k, v) d.
Proof.
  induction d as [|[k' v'] d IH]; simpl; [discriminate|].
  destruct (pystr_eq_dec k' k) as [E|E].
  - intros [= ->]. subst. now left.
  - intros H. right. now apply IH.
Qed.

Lemma In_dict_get k v d : NoDup (keys d) -> In (k, v) d -> dict_get k d = Some v.
Proof.
  induction d as [|[k' v'] d IH]; simpl; [tauto|].
  intros Hnd [H|H].
  - injection H as -> ->. destruct (pystr_eq_dec k k); congruence.
  - inversion Hnd as [|? ? Hnotin Hnd']; subst.
    destruct (pystr_eq_dec k' k) as [E|E].
    + subst k'. exfalso. apply Hnotin. now apply (in_map fst) in H.
    + now apply IH.
Qed.

Lemma keys_dict_set k v d q :
  In q (keys (dict_set k v d)) <-> k = q \/ In q (keys d).
Proof.
  induction d as [|[k' v'] d IH]; simpl.
  - intuition congruence.
  - destruct (pystr_eq_dec k' k) as [E|E]; simpl.
    + subst. intuition congruence.
    + rewrite IH. intuition congruence.
Qed.

Lemma NoDup_dict_set k v d : NoDup (keys d) -> NoDup (keys (dict_set k v d)).
Proof.
  induction d as [|[k' v'] d IH]; simpl; intros Hnd.
  - constructor; [simpl; tauto | constructor].
  - inversion Hnd as [|? ? Hnotin Hnd']; subst.
    destruct (pystr_eq_dec k' k) as [E|E]; simpl.
    + now constructor.
    + constructor; [|now apply IH].
      rewrite keys_dict_set. intuition congruence.
Qed.

(** A key that is new goes to the end. *)
Lemma dict_set_new k v d : ~ In k (keys d) -> dict_set k v d = d ++ [(k, v)].
Proof.
  induction d as [|[k' v'] d IH]; simpl; intros Hk; [reflexivity|].
  destruct (pystr_eq_dec k' k) as [E|E]; [tauto|].
  rewrite IH; tauto.
Qed.

End DictFacts.

(* ================================================================= *)
(** ** The change signal *)

(** C1. [has_changed] stores the pair in the pending mapping
    [new_checksums], whatever was stored there for the path before and
    without touching the other paths or the previous mapping, and it
    returns true exactly when the previous mapping [old_checksums] has no
    entry for the path or has a different fingerprint; so a path absent
    from the previous mapping always yields true. *)
Theorem has_changed_spec (self : ChecksumTracker) (path checksum : pystr) :
  let (self', changed) := has_changed self path checksum in
  new_checksums self' = dict_set path checksum (new_checksums self)
  /\ dict_get path (new_checksums self') = Some checksum
  /\ (forall q, q <> path ->
        dict_get q (new_checksums self') = dict_get q (new_checksums self))
  /\ old_checksums self' = old_checksums self
  /\ (changed = true <->
        dict_get path (old_checksums self) = None
        \/ exists o, dict_get path (old_checksums self) = Some o /\ o <> checksum)
  /\ (dict_get path (old_checksums self) = None -> changed = true).
Proof.
  unfold has_changed; simpl.
  repeat split.
  - apply dict_get_set_same.
  - intros q Hq. now apply dict_get_set_other.
  - destruct (dict_get path (old_checksums self)) as [o|]; [|now left].
    intros H. right. exists o. split; [reflexivity|].
    apply negb_true_iff, pystr_eqb_neq in H. exact H.
  - intros [H | (o & H & Hne)]; rewrite H; [reflexivity|].
    now apply negb_true_iff, pystr_eqb_neq.
  - intros ->. reflexivity.
Qed.

(* ================================================================= *)
(** ** Facts about strings *)

Section StringFacts.

Implicit Types (s t : pystr) (c : N).

Lemma contains_In c s : contains c s = true <-> In c s.
Proof.
  unfold contains. rewrite existsb_exists. split.
  - intros (x & Hx & E). apply N.eqb_eq in E. now subst.
  - intros H. exists c. split; [exact H | apply N.eqb_refl].
Qed.

Lemma lstrip_length s : length (lstrip s) <= length s.
Proof.
  induction s as [|c s IH]; simpl; [lia|].
  destruct (isspace c); simpl; lia.
Qed.

(** A string that [lstrip] leaves alone does not start with white space. *)
Lemma lstrip_fixed_head c s : lstrip (c :: s) = c :: s -> isspace c = false.
Proof.
  simpl. destruct (isspace c); [|reflexivity].
  intros H. pose proof (lstrip_length s) as L. rewrite H in L. simpl in L. lia.
Qed.

Lemma lstrip_app_fixed s c t :
  lstrip s = s -> isspace c = false -> lstrip (s ++ c :: t) = s ++ c :: t.
Proof.
  intros Hs Hc. destruct s as [|a s]; simpl.
  - now rewrite Hc.
  - now rewrite (lstrip_fixed_head a s Hs).
Qed.

Lemma rstrip_fixed_rev s : rstrip s = s -> lstrip (rev s) = rev s.
Proof.
  unfold rstrip. intros H. rewrite <- H at 2. now rewrite rev_involutive.
Qed.

Lemma lstrip_In c s : In c s -> isspace c = false -> In c (lstrip s).
Proof.
  intros Hin Hc. induction s as [|a s IH]; simpl; [easy|].
  destruct (isspace a) eqn:Ea; [|exact Hin].
  destruct Hin as [->|Hin]; [congruence | now apply IH].
Qed.

Lemma strip_In c s : In c s -> isspace c = false -> In c (strip s).
Proof.
  intros Hin Hc. unfold strip, rstrip.
  rewrite <- in_rev. apply lstrip_In; [|exact Hc].
  rewrite <- in_rev. now apply lstrip_In.
Qed.

Lemma split1_app sep s t :
  ~ In sep s -> split1 sep (s ++ sep :: t) = [s; t].
Proof.
  induction s as [|a s IH]; simpl; intros H.
  - now rewrite N.eqb_refl.
  - destruct (N.eqb_spec a sep) as [E|E]; [tauto|].
    rewrite IH; tauto.
Qed.

Lemma split1_In sep s : In sep s -> exists a b, split1 sep s = [a; b].
Proof.
  intros H. apply in_split in H as (l1 & l2 & ->).
  induction l1 as [|a l1 IH]; simpl.
  - rewrite N.eqb_refl. eauto.
  - destruct (N.eqb_spec a sep); [eauto|].
    destruct IH as (x & y & ->). eauto.
Qed.

Lemma translate_newlines_id s : ~ In CR s -> translate_newlines s = s.
Proof.
  induction s as [|c s IH]; simpl; intros H; [reflexivity|].
  destruct (N.eqb_spec c CR) as [E|E]; [tauto|].
  rewrite IH; tauto.
Qed.

Lemma keepends_line s t :
  ~ In LF s -> keepends (s ++ LF :: t) = (s ++ [LF]) :: keepends t.
Proof.
  induction s as [|c s IH]; simpl; intros H.
  - reflexivity.
  - destruct (N.eqb_spec c LF) as [E|E]; [tauto|].
    rewrite IH; tauto.
Qed.

End StringFacts.

(* ================================================================= *)
(** ** Facts about UTF-8 *)

Ltac lia_div := zify; Z.to_euclidean_division_equations; lia.

(** Settle the comparisons of the goal one by one. *)
Ltac settle_comparisons :=
  repeat match goal with
         | |- context [N.ltb ?a ?b] =>
             destruct (N.ltb_spec a b); try (exfalso; lia_div)
         | |- context [N.leb ?a ?b] =>
             destruct (N.leb_spec a b); try (exfalso; lia_div)
         end.

Lemma utf8_char_encodable c :
  (exists bs, utf8_char c = Return bs) <-> encodable c = true.
Proof.
  unfold utf8_char, encodable. split.
  - intros (bs & H). revert H. settle_comparisons; cbn [orb andb]; congruence.
  - settle_comparisons; cbn [orb andb]; try discriminate; eauto.
Qed.


(** Decoding what one code point was encoded to. *)
Lemma utf8_decode_char_match c rest :
  match utf8_char c with
  | Return bs =>
      utf8_decode (bs ++ rest) = (s <- utf8_decode rest ;; Return (c :: s))
  | Raise _ => True
  end.
Proof.
  unfold utf8_char.
  destruct (N.ltb_spec c 128).
  { cbn [app utf8_decode].
    destruct (N.ltb_spec c 128); [reflexivity | lia]. }
  destruct (N.ltb_spec c 2048).
  { cbn [app utf8_decode]. unfold continuation.
    settle_comparisons. cbn [andb].
    replace ((192 + c / 64 - 192) * 64 + (128 + c mod 64 - 128))%N with c
      by lia_div.
    reflexivity. }
  destruct (N.ltb_spec c 65536).
  { destruct ((55296 <=? c) && (c <=? 57343))%N eqn:E; [exact I|].
    cbn [app utf8_decode]. unfold continuation. cbv zeta.
    replace ((224 + c / 4096 - 224) * 4096 + (128 + (c / 64) mod 64 - 128) * 64
             + (128 + c mod 64 - 128))%N with c by lia_div.
    rewrite E.
    settle_comparisons. reflexivity. }
  destruct (N.ltb_spec c 1114112); [|exact I].
  cbn [app utf8_decode]. unfold continuation. cbv zeta.
  replace ((240 + c / 262144 - 240) * 262144
           + (128 + (c / 4096) mod 64 - 128) * 4096
           + (128 + (c / 64) mod 64 - 128) * 64
           + (128 + c mod 64 - 128))%N with c by lia_div.
  settle_comparisons. reflexivity.
Qed.

Lemma utf8_decode_char c bs rest :
  utf8_char c = Return bs ->
  utf8_decode (bs ++ rest) = (s <- utf8_decode rest ;; Return (c :: s)).
Proof.
  intros H. pose proof (utf8_decode_char_match c rest) as M.
  now rewrite H in M.
Qed.

Lemma utf8_decode_encode s : forall bs rest,
  utf8_encode s = Return bs ->
  utf8_decode (bs ++ rest) = (t <- utf8_decode rest ;; Return (s ++ t)).
Proof.
  induction s as [|c s IH]; intros bs rest.
  - intros [= <-]. cbn [app]. now destruct (utf8_decode rest).
  - cbn [utf8_encode].
    destruct (utf8_char c) as [b|e] eqn:Ec; [|discriminate].
    cbn [bind].
    destruct (utf8_encode s) as [b'|e] eqn:Es; [|discriminate].
    cbn [bind]. intros [= <-].
    rewrite <- app_assoc, (utf8_decode_char c b _ Ec), (IH b' rest eq_refl).
    now destruct (utf8_decode rest).
Qed.

Lemma utf8_roundtrip s bs : utf8_encode s = Return bs -> utf8_decode bs = Return s.
Proof.
  intros H. pose proof (utf8_decode_encode s bs [] H) as R.
  rewrite app_nil_r in R. cbn [utf8_decode bind] in R.
  now rewrite app_nil_r in R.
Qed.

Lemma utf8_encode_app s t :
  utf8_encode (s ++ t)
  = (a <- utf8_encode s ;; b <- utf8_encode t ;; Return (a ++ b)).
Proof.
  induction s as [|c s IH]; cbn [app utf8_encode bind].
  - destruct (utf8_encode t); reflexivity.
  - destruct (utf8_char c) as [x|e]; cbn [bind]; [|reflexivity].
    rewrite IH. destruct (utf8_encode s); cbn [bind]; [|reflexivity].
    destruct (utf8_encode t); cbn [bind]; [|reflexivity].
    now rewrite app_assoc.
Qed.

Lemma utf8_encode_encodable s :
  (exists bs, utf8_encode s = Return bs) <-> forallb encodable s = true.
Proof.
  induction s as [|c s IH]; cbn [utf8_encode forallb].
  - split; eauto.
  - rewrite andb_true_iff, <- IH, <- utf8_char_encodable. split.
    + intros (bs & H).
      destruct (utf8_char c) as [x|e]; [|discriminate].
      cbn [bind] in H. destruct (utf8_encode s) as [y|e]; [|discriminate].
      eauto.
    + intros ((x & ->) & (y & ->)). cbn [bind]. eauto.
Qed.

(** What the decoder returns can be encoded. *)
Lemma utf8_decode_encodable_len n : forall bs s,
  length bs <= n -> utf8_decode bs = Return s -> forallb encodable s = true.
Proof.
  induction n as [|n IH]; intros bs s Hn.
  - destruct bs; [|simpl in Hn; lia]. now intros [= <-].
  - destruct bs as [|b0 r0]; [now intros [= <-]|].
    simpl in Hn. cbn [utf8_decode].
    destruct (N.ltb_spec b0 128).
    { destruct (utf8_decode r0) as [t|e] eqn:E; [|discriminate].
      cbn [bind]. intros [= <-]. cbn [forallb].
      rewrite (IH r0 t) by (assumption || lia).
      unfold encodable. settle_comparisons. reflexivity. }
    destruct ((194 <=? b0) && (b0 <=? 223))%N eqn:E2.
    { destruct r0 as [|b1 r1]; [discriminate|].
      destruct (continuation b1) eqn:C1; [|discriminate].
      destruct (utf8_decode r1) as [t|e] eqn:E; [|discriminate].
      cbn [bind]. intros [= <-]. cbn [forallb]. simpl in Hn.
      rewrite (IH r1 t) by (assumption || lia).
      unfold continuation in C1.
      apply andb_true_iff in E2 as (A1 & A2), C1 as (B1 & B2).
      apply N.leb_le in A1, A2, B1, B2.
      unfold encodable. settle_comparisons. reflexivity. }
    destruct ((224 <=? b0) && (b0 <=? 239))%N eqn:E3.
    { destruct r0 as [|b1 [|b2 r2]]; try discriminate. cbv zeta.
      destruct (continuation b1 && continuation b2
                && (2048 <=? (b0 - 224) * 4096 + (b1 - 128) * 64 + (b2 - 128))
                && negb ((55296 <=? (b0 - 224) * 4096 + (b1 - 128) * 64 + (b2 - 128))
                         && ((b0 - 224) * 4096 + (b1 - 128) * 64 + (b2 - 128) <=? 57343)))%N
        eqn:C; [|discriminate].
      destruct (utf8_decode r2) as [t|e] eqn:E; [|discriminate].
      cbn [bind]. intros [= <-]. cbn [forallb]. simpl in Hn.
      rewrite (IH r2 t) by (assumption || lia).
      apply andb_true_iff in C as (C & S).
      apply andb_true_iff in C as (C & L).
      apply andb_true_iff in C as (C1 & C2).
      unfold continuation in C1, C2.
      apply andb_true_iff in E3 as (A1 & A2), C1 as (B1 & B2), C2 as (D1 & D2).
      apply N.leb_le in A1, A2, B1, B2, D1, D2, L.
      apply negb_true_iff in S.
      remember ((b0 - 224) * 4096 + (b1 - 128) * 64 + (b2 - 128))%N as c eqn:Hc.
      assert (c < 65536)%N by lia.
      unfold encodable.
      destruct (N.ltb_spec c 55296); [reflexivity|].
      destruct (N.leb_spec 57344 c); [|].
      - destruct (N.ltb_spec c 1114112); [reflexivity | lia].
      - exfalso. apply andb_false_iff in S as [S|S];
          [apply N.leb_gt in S | apply N.leb_gt in S]; lia. }
    destruct ((240 <=? b0) && (b0 <=? 244))%N eqn:E4; [|discriminate].
    destruct r0 as [|b1 [|b2 [|b3 r3]]]; try discriminate. cbv zeta.
    remember ((b0 - 240) * 262144 + (b1 - 128) * 4096 + (b2 - 128) * 64
              + (b3 - 128))%N as c eqn:Hc.
    destruct (continuation b1 && continuation b2 && continuation b3
              && (65536 <=? c) && (c <=? 1114111))%N eqn:C; [|discriminate].
    destruct (utf8_decode r3) as [t|e] eqn:E; [|discriminate].
    cbn [bind]. intros [= <-]. cbn [forallb]. simpl in Hn.
    rewrite (IH r3 t) by (assumption || lia).
    apply andb_true_iff in C as (C & U).
    apply andb_true_iff in C as (C & L).
    apply N.leb_le in U, L.
    unfold encodable.
    destruct (N.ltb_spec c 55296); [reflexivity|].
    destruct (N.leb_spec 57344 c); [|lia].
    destruct (N.ltb_spec c 1114112); [reflexivity | lia].
Qed.

Lemma utf8_decode_encodable bs s :
  utf8_decode bs = Return s -> forallb encodable s = true.
Proof. apply (utf8_decode_encodable_len (length bs)). lia. Qed.

Lemma utf8_encode_ok s :
  forallb encodable s = true -> exists bs, utf8_encode s = Return bs.
Proof. apply utf8_encode_encodable. Qed.

Lemma utf8_encode_raises s e : utf8_encode s = Raise e -> e = UnicodeEncodeError.
Proof.
  induction s as [|c s IH]; cbn [utf8_encode]; [discriminate|].
  destruct (utf8_char c) as [b|e'] eqn:Ec; cbn [bind].
  - destruct (utf8_encode s) as [b'|e'']; cbn [bind]; [discriminate|].
    intros [= <-]. now apply IH.
  - intros [= <-]. revert Ec. unfold utf8_char.
    repeat match goal with
           | |- context [if ?b then _ else _] => destruct b
           end; congruence.
Qed.

Lemma utf8_decode_raises bs e : utf8_decode bs = Raise e -> e = UnicodeDecodeError.
Proof.
  remember (length bs) as n eqn:Hn. revert bs Hn e.
  induction n as [n IH] using lt_wf_ind. intros bs Hn e.
  destruct bs as [|b0 r0]; [discriminate|]. cbn [utf8_decode].
  assert (Hrec : forall r, (length r < n)%nat ->
                   forall (f : pystr -> pystr) e',
                     (s <- utf8_decode r ;; Return (f s)) = Raise e' ->
                     e' = UnicodeDecodeError).
  { intros r Hr f e'. destruct (utf8_decode r) as [t|e''] eqn:E; cbn [bind];
      [discriminate|].
    intros [= <-]. exact (IH _ Hr r eq_refl _ E). }
  subst n. simpl in Hrec.
  destruct (b0 <? 128)%N; [apply (Hrec r0); lia|].
  destruct ((194 <=? b0) && (b0 <=? 223))%N.
  { destruct r0 as [|b1 r1]; [congruence|].
    destruct (continuation b1); [|congruence].
    apply (Hrec r1). simpl. lia. }
  destruct ((224 <=? b0) && (b0 <=? 239))%N.
  { destruct r0 as [|b1 [|b2 r2]]; try congruence. cbv zeta.
    match goal with |- context [if ?b then _ else _] => destruct b end;
      [|congruence].
    apply (Hrec r2). simpl. lia. }
  destruct ((240 <=? b0) && (b0 <=? 244))%N; [|congruence].
  destruct r0 as [|b1 [|b2 [|b3 r3]]]; try congruence. cbv zeta.
  match goal with |- context [if ?b then _ else _] => destruct b end;
    [|congruence].
  apply (Hrec r3). simpl. lia.
Qed.

(* ================================================================= *)
(** ** Reading a store back *)

Section RoundTrip.

Lemma store_line_assoc p c : store_line (p, c) = (p ++ EQ :: c) ++ [LF].
Proof. unfold store_line; simpl. now rewrite <- app_assoc. Qed.

Lemma strip_store_line p c :
  lstrip p = p -> rstrip c = c -> strip (store_line (p, c)) = p ++ EQ :: c.
Proof.
  intros Hp Hc. unfold strip, store_line; simpl fst; simpl snd.
  simpl app. rewrite (lstrip_app_fixed p EQ _ Hp) by reflexivity.
  unfold rstrip.
  replace (rev (p ++ EQ :: c ++ [LF])) with (LF :: rev c ++ EQ :: rev p).
  2:{ rewrite rev_app_distr. simpl. rewrite rev_app_distr. simpl.
      now rewrite <- app_assoc. }
  change (lstrip (LF :: rev c ++ EQ :: rev p))
    with (lstrip (rev c ++ EQ :: rev p)).
  rewrite (lstrip_app_fixed _ EQ _ (rstrip_fixed_rev c Hc)) by reflexivity.
  rewrite rev_app_distr. simpl. rewrite rev_involutive, <- app_assoc.
  simpl. now rewrite rev_involutive.
Qed.

Lemma load_line_store_line old p c :
  item_parses (p, c) ->
  load_line old (store_line (p, c)) = Return (dict_set p c old).
Proof.
  intros ((Heq & _ & _ & Hp) & (_ & _ & Hc)). simpl in *.
  unfold load_line.
  replace (contains EQ (store_line (p, c))) with true.
  2:{ symmetry. apply contains_In. unfold store_line. simpl.
      apply in_or_app. right. now left. }
  rewrite (strip_store_line p c Hp Hc), (split1_app EQ p c Heq). reflexivity.
Qed.

Lemma readlines_store_text d :
  Forall item_parses d -> readlines (store_text d) = map store_line d.
Proof.
  intros Hd. unfold readlines.
  rewrite translate_newlines_id.
  - induction Hd as [|[p c] d ((Heq & Hlf & _ & _) & (Hlf' & _ & _)) _ IH];
      [reflexivity|].
    simpl in *. unfold store_text in *. simpl.
    rewrite store_line_assoc, <- app_assoc. simpl.
    rewrite keepends_line, IH; [reflexivity|].
    intros H. apply in_app_or in H as [H|[H|H]]; [tauto|discriminate|tauto].
  - unfold store_text. rewrite in_concat. intros (l & Hl & Hin).
    apply in_map_iff in Hl as ([p c] & <- & Hpc).
    rewrite Forall_forall in Hd.
    destruct (Hd _ Hpc) as ((_ & _ & Hcr & _) & (_ & Hcr' & _)). simpl in *.
    unfold store_line in Hin. simpl in Hin.
    apply in_app_or in Hin as [H|[H|H]]; [tauto|discriminate|].
    apply in_app_or in H as [H|[H|[]]]; [tauto|discriminate].
Qed.

Lemma for_each_load_line d : forall acc,
  Forall item_parses d ->
  for_each load_line (map store_line d) acc
  = Return (fold_left (fun a kv => dict_set (fst kv) (snd kv) a) d acc).
Proof.
  induction d as [|[p c] d IH]; intros acc Hd; [reflexivity|].
  inversion Hd as [|? ? Hpc Hd']; subst. simpl.
  rewrite (load_line_store_line acc p c Hpc). simpl. now apply IH.
Qed.

Lemma fold_dict_set_fresh d : forall acc,
  NoDup (keys acc ++ keys d) ->
  fold_left (fun a kv => dict_set (fst kv) (snd kv) a) d acc = acc ++ d.
Proof.
  induction d as [|[p c] d IH]; intros acc Hnd; simpl.
  - now rewrite app_nil_r.
  - simpl in Hnd. rewrite dict_set_new.
    + rewrite IH; [now rewrite <- app_assoc|].
      unfold keys. rewrite map_app. simpl. now rewrite <- app_assoc.
    + apply NoDup_remove_2 in Hnd. intros H. apply Hnd.
      apply in_or_app. now left.
Qed.

(** Reading back the text of a store whose items parse. *)
Lemma load_store_text d :
  NoDup (keys d) -> Forall item_parses d -> load_text (store_text d) = Return d.
Proof.
  intros Hnd Hd. unfold load_text.
  rewrite (readlines_store_text d Hd), (for_each_load_line d [] Hd).
  now rewrite fold_dict_set_fresh.
Qed.

(** Parsing never raises: a line with a separator splits in two. *)
Lemma load_line_returns old line : exists old', load_line old line = Return old'.
Proof.
  unfold load_line. destruct (contains EQ line) eqn:E; [|eauto].
  apply contains_In in E.
  destruct (split1_In EQ (strip line)) as (a & b & ->); [|eauto].
  now apply strip_In.
Qed.

Lemma for_each_load_line_returns lines : forall acc,
  exists old, for_each load_line lines acc = Return old.
Proof.
  induction lines as [|l lines IH]; intros acc; simpl; [eauto|].
  destruct (load_line_returns acc l) as (acc' & ->). simpl. apply IH.
Qed.

Lemma load_text_returns content : exists old, load_text content = Return old.
Proof. apply for_each_load_line_returns. Qed.

Lemma load_bytes bytes content :
  utf8_decode bytes = Return content -> _load (Bytes bytes) = load_text content.
Proof. intros H. unfold _load. rewrite H. reflexivity. Qed.

Lemma load_undecodable bytes e :
  utf8_decode bytes = Raise e -> _load (Bytes bytes) = Raise UnicodeDecodeError.
Proof.
  intros H. unfold _load. rewrite H. cbn [bind].
  now rewrite (utf8_decode_raises bytes e H).
Qed.

(** The bytes of a store are read back as its text. *)
Lemma load_encoded d bytes :
  utf8_encode (store_text d) = Return bytes ->
  _load (Bytes bytes) = load_text (store_text d).
Proof. intros H. apply load_bytes. now apply utf8_roundtrip. Qed.

End RoundTrip.

Lemma load_loaded file old : _load file = Return old -> loaded file = old.
Proof. intros H. unfold loaded. now rewrite H. Qed.

Lemma loaded_returns file old :
  _load file = Return old -> _load file = Return (loaded file).
Proof. intros H. now rewrite (load_loaded file old H). Qed.

Lemma store_bytes_encoded d bytes :
  utf8_encode (store_text d) = Return bytes -> store_bytes d = bytes.
Proof. intros H. unfold store_bytes. now rewrite H. Qed.

Lemma encodable_store_line item :
  encodable_item item -> forallb encodable (store_line item) = true.
Proof.
  intros (Hp & Hc). unfold store_line.
  rewrite !forallb_app, Hp, Hc. reflexivity.
Qed.

Lemma encodable_store_text d :
  Forall encodable_item d -> forallb encodable (store_text d) = true.
Proof.
  induction 1 as [|item d Hi _ IH]; [reflexivity|].
  unfold store_text in *. cbn [map concat].
  now rewrite forallb_app, (encodable_store_line item Hi), IH.
Qed.

(** ** Writing the lines of a store *)

(** [write_all] either encodes every line, or stops at the first line that
    cannot be encoded, with the lines before it in the buffer. *)
Lemma write_all_cases lines : forall buffer,
  (exists b, utf8_encode (concat lines) = Return b
             /\ write_all lines buffer = (Return tt, buffer ++ b))
  \/ (exists done line rest b,
         lines = done ++ line :: rest
         /\ utf8_encode (concat done) = Return b
         /\ utf8_encode line = Raise UnicodeEncodeError
         /\ write_all lines buffer = (Raise UnicodeEncodeError, buffer ++ b)).
Proof.
  induction lines as [|l lines IH]; intros buffer; cbn [write_all concat].
  - left. exists []. now rewrite app_nil_r.
  - destruct (utf8_encode l) as [bl|e] eqn:El.
    + destruct (IH (buffer ++ bl)) as [(b & Hb & Hw)|(done & line & rest & b & Hl & Hb & He & Hw)].
      * left. exists (bl ++ b). rewrite utf8_encode_app, El, Hb, Hw.
        cbn [bind]. now rewrite <- app_assoc.
      * right. exists (l :: done), line, rest, (bl ++ b).
        repeat split; [now rewrite Hl|..|exact He|].
        -- cbn [concat]. rewrite utf8_encode_app, El, Hb. reflexivity.
        -- rewrite Hw. now rewrite <- app_assoc.
    + right. exists [], l, lines, [].
      pose proof (utf8_encode_raises l e El) as ->.
      repeat split; [exact El|]. now rewrite app_nil_r.
Qed.

Lemma write_all_stops done : forall line rest buffer bytes,
  utf8_encode (concat done) = Return bytes ->
  utf8_encode line = Raise UnicodeEncodeError ->
  write_all (done ++ line :: rest) buffer
  = (Raise UnicodeEncodeError, buffer ++ bytes).
Proof.
  induction done as [|d done IH]; intros line rest buffer bytes Hdone Hline.
  - cbn [concat utf8_encode] in Hdone. injection Hdone as <-.
    cbn [app write_all]. rewrite Hline. now rewrite app_nil_r.
  - cbn [concat] in Hdone. rewrite utf8_encode_app in Hdone.
    cbn [app write_all].
    destruct (utf8_encode d) as [bd|e]; [|discriminate Hdone].
    cbn [bind] in Hdone.
    destruct (utf8_encode (concat done)) as [bs|e] eqn:Es;
      [|discriminate Hdone].
    cbn [bind] in Hdone. injection Hdone as <-.
    rewrite (IH line rest (buffer ++ bd) bs eq_refl Hline).
    now rewrite <- app_assoc.
Qed.

Lemma write_all_returns lines buffer b :
  utf8_encode (concat lines) = Return b ->
  write_all lines buffer = (Return tt, buffer ++ b).
Proof.
  intros H.
  destruct (write_all_cases lines buffer)
    as [(b' & Hb & Hw)|(done & line & rest & b' & Hl & Hb & He & Hw)].
  - rewrite H in Hb. injection Hb as <-. exact Hw.
  - exfalso. rewrite Hl, concat_app in H. cbn [concat] in H.
    rewrite utf8_encode_app, Hb in H. cbn [bind] in H.
    rewrite utf8_encode_app, He in H. discriminate H.
Qed.

Lemma save_no_fault self file bytes :
  utf8_encode (store_text (new_checksums self)) = Return bytes ->
  save NoFault self file = (Return tt, Bytes bytes).
Proof.
  intros H. unfold save, store_text in *.
  rewrite (write_all_returns _ [] bytes H). reflexivity.
Qed.

Lemma save_disk_fails n self file bytes :
  utf8_encode (store_text (new_checksums self)) = Return bytes ->
  save (DiskFails n) self file
  = if (n <? length bytes)%nat
    then (Raise OSError, Bytes (firstn n bytes))
    else (Return tt, Bytes bytes).
Proof.
  intros H. unfold save, store_text in *.
  rewrite (write_all_returns _ [] bytes H). reflexivity.
Qed.

Lemma well_formed_item_parses item : well_formed_item item -> item_parses item.
Proof.
  intros ((_ & Heq & (Hlf & Hcr) & (Hl & _)) & ((Hlf' & Hcr') & (_ & Hr'))).
  repeat split; assumption.
Qed.

(** C10 (as amended). Store round trip: when every path of the pending
    mapping is non-empty, has no '=', no newline and no leading or trailing
    white space, every fingerprint has no newline and no surrounding white
    space, and every path and fingerprint can be encoded in UTF-8 (no
    surrogate code point), [save] succeeds and [_load] on the file it wrote
    returns the pending mapping, item for item. *)
Theorem save_load_roundtrip (self : ChecksumTracker) (file : file_state) :
  NoDup (keys (new_checksums self)) ->
  Forall well_formed_item (new_checksums self) ->
  Forall encodable_item (new_checksums self) ->
  fst (save NoFault self file) = Return tt
  /\ _load (snd (save NoFault self file)) = Return (new_checksums self).
Proof.
  intros Hnd Hwf Henc.
  destruct (utf8_encode_ok _ (encodable_store_text _ Henc)) as (bytes & Hb).
  rewrite (save_no_fault self file bytes Hb). cbn [fst snd].
  split; [reflexivity|].
  rewrite (load_encoded _ bytes Hb).
  apply load_store_text; [exact Hnd|].
  eapply Forall_impl; [|exact Hwf]. apply well_formed_item_parses.
Qed.

(** Closed facts about concrete strings, by computation. *)
Ltac not_in_string :=
  let H := fresh in
  intros H; apply contains_In in H; vm_compute in H; discriminate H.

Ltac not_in_list :=
  let H := fresh in
  intros H; simpl in H;
  repeat (destruct H as [H|H]; [vm_compute in H; discriminate H|]);
  exact H.

Ltac nodup_strings :=
  repeat (constructor; [not_in_list|]); constructor.

Ltac well_formed_strings :=
  repeat (constructor;
          [repeat split; try not_in_string; try reflexivity;
           try (vm_compute; discriminate)|]);
  try constructor.

Ltac encodable_strings :=
  repeat (constructor; [split; vm_compute; reflexivity|]); constructor.

Lemma save_load_roundtrip_witness :
  fst (save NoFault sample_tracker Missing) = Return tt
  /\ _load (snd (save NoFault sample_tracker Missing))
     = Return (new_checksums sample_tracker).
Proof.
  apply (save_load_roundtrip sample_tracker Missing).
  - nodup_strings.
  - well_formed_strings.
  - encodable_strings.
Defined.

(** C10 as the specification words it, without the encoding condition: a
    file name with the lone surrogate U+DC80 meets every condition, yet
    [save] raises [UnicodeEncodeError] and the file it leaves is empty. *)
Lemma save_load_roundtrip_counterexample :
  NoDup (keys (new_checksums surrogate_tracker))
  /\ Forall well_formed_item (new_checksums surrogate_tracker)
  /\ fst (save NoFault surrogate_tracker Missing) = Raise UnicodeEncodeError
  /\ snd (save NoFault surrogate_tracker Missing) = Bytes []
  /\ ~ (fst (save NoFault surrogate_tracker Missing) = Return tt
        /\ _load (snd (save NoFault surrogate_tracker Missing))
           = Return (new_checksums surrogate_tracker)).
Proof.
  split; [nodup_strings|]. split; [well_formed_strings|].
  split; [vm_compute; reflexivity|]. split; [vm_compute; reflexivity|].
  intros (H & _). vm_compute in H. discriminate H.
Qed.

(* ================================================================= *)
(** ** One iteration of the loop *)

Lemma visit_cases w config u st file :
  visit_case w config u st file (visit w config u st file).
Proof.
  unfold visit.
  destruct (negb (is_file file)
            || existsb (pystr_eqb (str ".git")) (parts config file)) eqn:Hv.
  - apply case_ignored. unfold visited. now rewrite Hv.
  - assert (Hvis : visited config file = true)
      by (unfold visited; now rewrite Hv).
    destruct (get_checksum (read_for_checksum file)) as [c|e] eqn:Hc.
    + unfold has_changed. simpl.
      fold (differs (old_checksums (tracker st)) (relative_path file) c).
      fold (recorded (tracker st) (relative_path file) c).
      destruct (differs (old_checksums (tracker st)) (relative_path file) c)
        eqn:Hd.
      * destruct (upload_file w u file (relative_path file)) as [[|]|e] eqn:Hu.
        -- now apply case_uploaded.
        -- now apply case_failed.
        -- now apply case_upload_raised.
      * now apply case_unchanged.
    + now apply case_unreadable.
Qed.

Lemma walk_cons w config u file rest st :
  walk w config u (file :: rest) st
  = match visit w config u st file with
    | (Return _, st') => walk w config u rest st'
    | (Raise e, st') => (Raise e, st')
    end.
Proof. reflexivity. Qed.

Lemma walk_app w config u pre post : forall st,
  walk w config u (pre ++ post) st
  = match walk w config u pre st with
    | (Return _, st1) => walk w config u post st1
    | (Raise e, st1) => (Raise e, st1)
    end.
Proof.
  induction pre as [|f pre IH]; intros st; simpl; [reflexivity|].
  destruct (visit w config u st f) as [[[]|e] st']; [apply IH | reflexivity].
Qed.

(* ================================================================= *)
(** ** The walk *)

(** One step of a proof by induction on the files of a walk. *)
Ltac walk_step w config u st f :=
  rewrite walk_cons in *;
  let Hc := fresh "Hc" in
  let r := fresh "r" in
  let st1 := fresh "st1" in
  pose proof (visit_cases w config u st f) as Hc;
  destruct (visit w config u st f) as [r st1];
  inversion Hc; subst; clear Hc.

Lemma visited_paths_cons config f rest :
  visited_paths config (f :: rest)
  = if visited config f then relative_path f :: visited_paths config rest
    else visited_paths config rest.
Proof. unfold visited_paths. simpl. now destruct (visited config f). Qed.

Section Walk.

Variables (w : World) (config : Config) (u : DatabricksUploader).

(** The previous mapping is never written. *)
Lemma walk_old files : forall st r st',
  walk w config u files st = (r, st') ->
  old_checksums (tracker st') = old_checksums (tracker st).
Proof.
  induction files as [|f rest IH]; intros st r st' H.
  - injection H as _ <-. reflexivity.
  - walk_step w config u st f;
      try (injection H as _ <-; reflexivity);
      apply IH in H; exact H.
Qed.

Lemma walk_nodup files : forall st r st',
  walk w config u files st = (r, st') ->
  NoDup (keys (new_checksums (tracker st))) ->
  NoDup (keys (new_checksums (tracker st'))).
Proof.
  induction files as [|f rest IH]; intros st r st' H Hnd.
  - injection H as _ <-. exact Hnd.
  - walk_step w config u st f;
      try (injection H as _ <-; simpl; try apply NoDup_dict_set; exact Hnd);
      apply (IH _ _ _ H); simpl; try apply NoDup_dict_set; exact Hnd.
Qed.

(** A path the walk does not visit keeps its pending entry. *)
Lemma walk_get_other files p : forall st r st',
  walk w config u files st = (r, st') ->
  ~ In p (visited_paths config files) ->
  dict_get p (new_checksums (tracker st'))
  = dict_get p (new_checksums (tracker st)).
Proof.
  induction files as [|f rest IH]; intros st r st' H Hp.
  - injection H as _ <-. reflexivity.
  - rewrite visited_paths_cons in Hp.
    walk_step w config u st f;
      match goal with Hv : visited config f = _ |- _ => rewrite Hv in Hp end;
      simpl in Hp;
      try (injection H as _ <-; simpl;
           try (apply dict_get_set_other; intuition congruence); reflexivity);
      (apply IH in H; [|tauto]); rewrite H; simpl;
      try (apply dict_get_set_other; intuition congruence); reflexivity.
Qed.

(** Only visited paths enter the pending mapping. *)
Lemma walk_keys_sub files p : forall st r st',
  walk w config u files st = (r, st') ->
  In p (keys (new_checksums (tracker st'))) ->
  In p (keys (new_checksums (tracker st))) \/ In p (visited_paths config files).
Proof.
  induction files as [|f rest IH]; intros st r st' H Hp.
  - injection H as _ <-. now left.
  - rewrite visited_paths_cons.
    walk_step w config u st f;
      match goal with Hv : visited config f = _ |- _ => rewrite Hv end;
      try (injection H as _ <-; simpl in Hp;
           try (apply keys_dict_set in Hp; simpl); tauto);
      (destruct (IH _ _ _ H Hp) as [Hk|Hk]; [|simpl; tauto]);
      simpl in Hk; try (apply keys_dict_set in Hk; simpl); tauto.
Qed.

(** The counters only grow. *)
Lemma walk_counts_grow files : forall st r st',
  walk w config u files st = (r, st') ->
  (uploaded (counts st) <= uploaded (counts st')
   /\ skipped (counts st) <= skipped (counts st')
   /\ failed (counts st) <= failed (counts st'))%Z.
Proof.
  induction files as [|f rest IH]; intros st r st' H.
  - injection H as _ <-. lia.
  - walk_step w config u st f;
      try (injection H as _ <-; simpl; lia);
      apply IH in H; simpl in H; lia.
Qed.

(** A walk that completes counted every file it visited, once. *)
Lemma walk_total files : forall st st',
  walk w config u files st = (Return tt, st') ->
  total (counts st')
  = (total (counts st) + Z.of_nat (length (filter (visited config) files)))%Z.
Proof.
  induction files as [|f rest IH]; intros st st' H.
  - injection H as <-. simpl. lia.
  - simpl filter.
    walk_step w config u st f;
      match goal with Hv : visited config f = _ |- _ => rewrite Hv end;
      try discriminate H;
      apply IH in H; rewrite H; unfold total; simpl length; simpl; lia.
Qed.

(** A walk that completes recorded every path it visited. *)
Lemma walk_keys_sup files p : forall st st',
  walk w config u files st = (Return tt, st') ->
  In p (keys (new_checksums (tracker st))) \/ In p (visited_paths config files) ->
  In p (keys (new_checksums (tracker st'))).
Proof.
  induction files as [|f rest IH]; intros st st' H Hp.
  - injection H as <-. simpl in Hp. tauto.
  - rewrite visited_paths_cons in Hp.
    walk_step w config u st f;
      match goal with Hv : visited config f = _ |- _ => rewrite Hv in Hp end;
      try discriminate H;
      apply (IH _ _ H); simpl; try rewrite keys_dict_set; simpl in Hp; tauto.
Qed.

(** A walk that completes could read every file it visited. *)
Lemma walk_reads files : forall st st',
  walk w config u files st = (Return tt, st') ->
  forall f, In f files -> visited config f = true ->
  exists c, get_checksum (read_for_checksum f) = Return c.
Proof.
  induction files as [|f rest IH]; intros st st' H g Hg Hv; [destruct Hg|].
  destruct Hg as [<-|Hg].
  - walk_step w config u st f; try discriminate H; try congruence; eauto.
  - walk_step w config u st f; try discriminate H; eapply IH; eauto.
Qed.

End Walk.

Section WalkResults.

Variables (w : World) (config : Config) (u : DatabricksUploader).

(** After a walk that completes, the pending mapping holds the
    fingerprint of every file it visited (each path being met once). *)
Lemma walk_get files : forall st st',
  walk w config u files st = (Return tt, st') ->
  NoDup (visited_paths config files) ->
  forall f c, In f files -> visited config f = true ->
  get_checksum (read_for_checksum f) = Return c ->
  dict_get (relative_path f) (new_checksums (tracker st')) = Some c.
Proof.
  induction files as [|f rest IH]; intros st st' H Hnd g c Hg Hv Hc;
    [destruct Hg|].
  rewrite visited_paths_cons in Hnd.
  destruct Hg as [<-|Hg].
  - rewrite Hv in Hnd. apply NoDup_cons_iff in Hnd as [Hfresh _].
    walk_step w config u st f; try discriminate H; try congruence;
      rewrite (walk_get_other w config u rest _ _ _ _ H Hfresh); simpl;
      replace c0 with c by congruence; apply dict_get_set_same.
  - assert (Hnd' : NoDup (visited_paths config rest)).
    { destruct (visited config f); [|exact Hnd].
      now apply NoDup_cons_iff in Hnd. }
    walk_step w config u st f; try discriminate H; eapply IH; eauto.
Qed.

(** A file whose upload failed was counted in [failed]. *)
Lemma walk_failed files : forall st st',
  walk w config u files st = (Return tt, st') ->
  forall f c, In f files -> visited config f = true ->
  get_checksum (read_for_checksum f) = Return c ->
  differs (old_checksums (tracker st)) (relative_path f) c = true ->
  upload_file w u f (relative_path f) = Return false ->
  (failed (counts st) < failed (counts st'))%Z.
Proof.
  induction files as [|f rest IH]; intros st st' H g c Hg Hv Hc Hd Hu;
    [destruct Hg|].
  destruct Hg as [<-|Hg].
  - walk_step w config u st f; try discriminate H; try congruence;
      apply walk_counts_grow in H; simpl in H; lia.
  - pose proof (walk_old w config u (f :: rest) _ _ _ H) as Hold.
    walk_step w config u st f; try discriminate H;
      pose proof (walk_counts_grow w config u rest _ _ _ H) as Hg';
      pose proof (walk_old w config u rest _ _ _ H) as Hold';
      simpl in Hg', Hold';
      (eapply Z.le_lt_trans; [|eapply (IH _ _ H g c); eauto]);
      simpl; try lia.
Qed.

(** When the previous mapping already holds the fingerprint of every
    file to visit, the walk completes and only [skipped] moves. *)
Lemma walk_unchanged files : forall st,
  (forall f, In f files -> visited config f = true ->
     exists c, get_checksum (read_for_checksum f) = Return c
               /\ dict_get (relative_path f) (old_checksums (tracker st)) = Some c) ->
  exists st',
    walk w config u files st = (Return tt, st')
    /\ uploaded (counts st') = uploaded (counts st)
    /\ failed (counts st') = failed (counts st)
    /\ skipped (counts st')
       = (skipped (counts st)
          + Z.of_nat (length (filter (visited config) files)))%Z.
Proof.
  induction files as [|f rest IH]; intros st Hall.
  - exists st. simpl. repeat split; lia.
  - rewrite walk_cons. simpl filter.
    pose proof (visit_cases w config u st f) as Hcase.
    destruct (visit w config u st f) as [r st1].
    assert (Hrest : forall st2,
              old_checksums (tracker st2) = old_checksums (tracker st) ->
              forall g, In g rest -> visited config g = true ->
              exists c, get_checksum (read_for_checksum g) = Return c
                /\ dict_get (relative_path g) (old_checksums (tracker st2)) = Some c).
    { intros st2 E g Hg Hv. rewrite E. apply Hall; [now right | exact Hv]. }
    inversion Hcase as [Hv | e Hv Hr | c Hv Hr Hd | c Hv Hr Hd Hu
                        | c Hv Hr Hd Hu | c e Hv Hr Hd Hu]; subst;
      rewrite Hv; try (destruct (Hall f (or_introl eq_refl) Hv) as (c' & Hc' & Hget)).
    + apply IH. now apply Hrest.
    + congruence.
    + match goal with
      | |- context [walk w config u rest ?s] =>
          destruct (IH s (Hrest s eq_refl)) as (st' & Hw & Hu' & Hf' & Hs')
      end.
      exists st'. simpl in Hu', Hf', Hs'.
      repeat split; try assumption. simpl length. lia.
    + exfalso. unfold differs in Hd. rewrite Hget in Hd.
      replace c' with c in Hd by congruence.
      now rewrite pystr_eqb_refl in Hd.
    + exfalso. unfold differs in Hd. rewrite Hget in Hd.
      replace c' with c in Hd by congruence.
      now rewrite pystr_eqb_refl in Hd.
    + exfalso. unfold differs in Hd. rewrite Hget in Hd.
      replace c' with c in Hd by congruence.
      now rewrite pystr_eqb_refl in Hd.
Qed.

End WalkResults.

(* ================================================================= *)
(** ** Fingerprints are hexadecimal *)

Lemma hexdigit_hex n : In (MD5.hexdigit n) (str "0123456789abcdef").
Proof.
  unfold MD5.hexdigit. cbv zeta.
  pose proof (Z.mod_pos_bound n 16 eq_refl) as Hb.
  remember (n mod 16)%Z as d eqn:Hd. clear Hd.
  assert (Hcases : (d = 0 \/ d = 1 \/ d = 2 \/ d = 3 \/ d = 4 \/ d = 5 \/ d = 6
                    \/ d = 7 \/ d = 8 \/ d = 9 \/ d = 10 \/ d = 11 \/ d = 12
                    \/ d = 13 \/ d = 14 \/ d = 15)%Z) by lia.
  repeat (destruct Hcases as [->|Hcases]; [vm_compute; tauto|]).
  subst d. vm_compute. tauto.
Qed.

Lemma hex_plain c :
  In c (str "0123456789abcdef") -> isspace c = false /\ c <> LF /\ c <> CR.
Proof.
  intros H. vm_compute in H.
  repeat (destruct H as [<-|H]; [repeat split; discriminate|]).
  destruct H.
Qed.

Lemma hexdigest_plain content c :
  In c (MD5.hexdigest content) -> isspace c = false /\ c <> LF /\ c <> CR.
Proof.
  unfold MD5.hexdigest. rewrite in_flat_map. intros (x & _ & Hc).
  apply hex_plain. unfold MD5.hexbyte in Hc.
  destruct Hc as [<-|[<-|[]]]; apply hexdigit_hex.
Qed.

Lemma rstrip_plain s : (forall c, In c s -> isspace c = false) -> rstrip s = s.
Proof.
  intros H. unfold rstrip.
  assert (E : lstrip (rev s) = rev s).
  { destruct (rev s) as [|c t] eqn:Er; [reflexivity|].
    simpl. rewrite H; [reflexivity|].
    apply in_rev. rewrite Er. now left. }
  rewrite E. apply rev_involutive.
Qed.

Lemma hexdigest_parses content : fingerprint_parses (MD5.hexdigest content).
Proof.
  repeat split.
  - intros H. now apply hexdigest_plain in H as (_ & H & _).
  - intros H. now apply hexdigest_plain in H as (_ & _ & H).
  - apply rstrip_plain. intros c H. now apply hexdigest_plain in H.
Qed.

Lemma get_checksum_parses read c :
  get_checksum read = Return c -> fingerprint_parses c.
Proof.
  unfold get_checksum. destruct read as [content|e]; simpl; [|discriminate].
  intros [= <-]. apply hexdigest_parses.
Qed.

Lemma Forall_dict_set (P : pystr * pystr -> Prop) k v d :
  P (k, v) -> Forall P d -> Forall P (dict_set k v d).
Proof.
  intros Hkv Hd. induction Hd as [|[k' v'] d Hx Hd IH]; simpl.
  - now constructor.
  - destruct (pystr_eq_dec k' k) as [->|E]; constructor; assumption.
Qed.

(** With paths that parse, every item of the pending mapping parses. *)
Lemma walk_items w config u files : forall st r st',
  walk w config u files st = (r, st') ->
  Forall path_parses (visited_paths config files) ->
  Forall item_parses (new_checksums (tracker st)) ->
  Forall item_parses (new_checksums (tracker st')).
Proof.
  induction files as [|f rest IH]; intros st r st' H Hp Hi.
  - injection H as _ <-. exact Hi.
  - rewrite visited_paths_cons in Hp.
    walk_step w config u st f;
      match goal with Hv : visited config f = _ |- _ => rewrite Hv in Hp end;
      try (inversion Hp as [|? ? Hpf Hp']; subst);
      try (injection H as _ <-); try exact Hi;
      try (apply (IH _ _ _ H); try assumption);
      simpl; apply Forall_dict_set; try assumption;
      (split; [assumption | eapply get_checksum_parses; eassumption]).
Qed.

(* ================================================================= *)
(** ** The state after a walk *)

Lemma count_cons p f rest :
  count p (f :: rest) = ((if p f then 1 else 0) + count p rest)%Z.
Proof.
  unfold count. simpl. destruct (p f); simpl length; lia.
Qed.

Lemma record_all_cons config f rest d :
  record_all config (f :: rest) d
  = if visited config f
    then record_all config rest (dict_set (relative_path f) (fingerprint_of f) d)
    else record_all config rest d.
Proof. unfold record_all. simpl. now destruct (visited config f). Qed.

(** The state a walk that completes ends in. *)
Lemma walk_completed w config u files : forall st st',
  walk w config u files st = (Return tt, st') ->
  let old := old_checksums (tracker st) in
  uploaded (counts st')
  = (uploaded (counts st) + count (goes_to_uploaded w config u old) files)%Z
  /\ skipped (counts st')
     = (skipped (counts st) + count (goes_to_skipped config old) files)%Z
  /\ failed (counts st')
     = (failed (counts st) + count (goes_to_failed w config u old) files)%Z
  /\ new_checksums (tracker st')
     = record_all config files (new_checksums (tracker st)).
Proof.
  induction files as [|f rest IH]; intros st st' H; cbv zeta.
  - injection H as <-. unfold count. simpl. repeat split; lia.
  - rewrite walk_cons in H.
    pose proof (visit_cases w config u st f) as Hcase.
    destruct (visit w config u st f) as [r st1].
    rewrite !count_cons, record_all_cons.
    unfold goes_to_uploaded, goes_to_skipped, goes_to_failed, is_changed,
      upload_returns, fingerprint_of.
    inversion Hcase as [Hv | e Hv Hr | c Hv Hr Hd | c Hv Hr Hd Hu
                        | c Hv Hr Hd Hu | c e Hv Hr Hd Hu]; subst r st1;
      try discriminate H;
      apply IH in H; simpl in H; destruct H as (H1 & H2 & H3 & H4);
      rewrite Hv; try rewrite Hr; try rewrite Hd; try rewrite Hu;
      cbn [andb negb Bool.eqb];
      (repeat split; [rewrite H1 | rewrite H2 | rewrite H3 | rewrite H4]);
      try reflexivity; unfold goes_to_uploaded, goes_to_skipped,
        goes_to_failed, is_changed, upload_returns, fingerprint_of; lia.
Qed.

(* ================================================================= *)
(** ** Writing the store *)

(** When [save] returns, the file holds the bytes of the whole pending
    mapping. *)
Lemma save_returns flt self file :
  fst (save flt self file) = Return tt ->
  utf8_encode (store_text (new_checksums self))
  = Return (store_bytes (new_checksums self))
  /\ snd (save flt self file) = Bytes (store_bytes (new_checksums self)).
Proof.
  unfold save, store_text, store_bytes.
  destruct (write_all_cases (map store_line (new_checksums self)) [])
    as [(b & Hb & Hw)|(done & line & rest & b & _ & _ & _ & Hw)];
    rewrite Hw; cbn [app]; unfold store_text.
  - rewrite Hb. destruct flt as [| |n]; cbn [close fst snd];
      [auto|discriminate|].
    destruct (n <? length b)%nat; cbn [fst snd]; [discriminate|auto].
  - destruct flt as [| |n]; cbn [close fst snd]; try discriminate.
    destruct (n <? length b)%nat; cbn [fst snd]; discriminate.
Qed.

(** Once the file is open, what [save] leaves in it does not depend on
    what it held. *)
Lemma save_overwrites flt self file file' :
  flt <> OpenFails -> save flt self file = save flt self file'.
Proof. intros H. destruct flt; [reflexivity|congruence|reflexivity]. Qed.

(* ================================================================= *)
(** ** The run as a whole *)

Lemma tracker_init file old :
  _load file = Return old ->
  ChecksumTracker_init file
  = Return {| old_checksums := old; new_checksums := [] |}.
Proof. intros H. unfold ChecksumTracker_init. now rewrite H. Qed.

Lemma main_loop w config :
  reaches_loop w config ->
  main w
  = match the_walk w config with
    | (Raise e, st) =>
        {| status := Uncaught e; file_after := checksum_file w;
           loop_state := Some st; summary := None |}
    | (Return _, st) =>
        match save (save_fault w) (tracker st) (checksum_file w) with
        | (Raise e, file) =>
            {| status := Uncaught e; file_after := file;
               loop_state := Some st; summary := None |}
        | (Return _, file) =>
            {| status := if (failed (counts st) >? 0)%Z then Exit 1 else Exit 0;
               file_after := file;
               loop_state := Some st;
               summary := Some (counts st) |}
        end
    end.
Proof.
  intros (Hc & Hl & Hg & Ht). unfold main, setup_logging.
  rewrite Hc, Hl, Hg, (tracker_init _ _ Ht). reflexivity.
Qed.

(** A run that logs its summary went through the loop and the save. *)
Lemma main_summary w config c :
  get_config (environ w) = Return config ->
  summary (main w) = Some c ->
  exists st,
    reaches_loop w config
    /\ the_walk w config = (Return tt, st)
    /\ fst (save (save_fault w) (tracker st) (checksum_file w)) = Return tt
    /\ c = counts st
    /\ loop_state (main w) = Some st
    /\ file_after (main w) = Bytes (store_bytes (new_checksums (tracker st)))
    /\ status (main w) = (if (failed (counts st) >? 0)%Z then Exit 1 else Exit 0)
    /\ utf8_encode (store_text (new_checksums (tracker st)))
       = Return (store_bytes (new_checksums (tracker st))).
Proof.
  intros Hc Hs.
  assert (Hreach : reaches_loop w config).
  { unfold main, setup_logging, stop in Hs. rewrite Hc in Hs.
    unfold reaches_loop.
    destruct (mkdir_log_dir w) as [[]|e]; [|discriminate Hs].
    destruct (git_sync w config) as [[|]|e]; try discriminate Hs.
    unfold ChecksumTracker_init in Hs.
    destruct (_load (checksum_file w)) as [old|e] eqn:El;
      [|discriminate Hs].
    rewrite (load_loaded _ _ El). auto. }
  rewrite (main_loop w config Hreach) in *.
  destruct (the_walk w config) as [[[]|e] st]; [|discriminate Hs].
  exists st.
  pose proof (save_returns (save_fault w) (tracker st) (checksum_file w)) as Hsave.
  destruct (save (save_fault w) (tracker st) (checksum_file w)) as [[[]|e] file];
    [|discriminate Hs].
  simpl in *. injection Hs as <-.
  destruct (Hsave eq_refl) as (Henc & Hfile).
  split; [exact Hreach|]. repeat split; auto.
Qed.

Lemma utf8_encode_app_inv s t bytes :
  utf8_encode (s ++ t) = Return bytes ->
  exists a b, utf8_encode s = Return a /\ utf8_encode t = Return b
              /\ bytes = a ++ b.
Proof.
  rewrite utf8_encode_app.
  destruct (utf8_encode s) as [a|e]; [|discriminate].
  destruct (utf8_encode t) as [b|e]; [|discriminate].
  cbn [bind]. intros [= <-]. eauto.
Qed.

(** The bytes of a store hold the line of each of its items. *)
Lemma store_bytes_item d p c bytes :
  In (p, c) d ->
  utf8_encode (store_text d) = Return bytes ->
  exists before line after,
    utf8_encode (p ++ [EQ] ++ c ++ [LF]) = Return line
    /\ bytes = before ++ line ++ after.
Proof.
  intros Hin Henc. apply in_split in Hin as (d1 & d2 & ->).
  unfold store_text in Henc. rewrite map_app, concat_app in Henc.
  cbn [map concat] in Henc.
  apply utf8_encode_app_inv in Henc as (before & b & _ & Hb & ->).
  apply utf8_encode_app_inv in Hb as (line & after & Hline & _ & ->).
  exists before, line, after. split; [exact Hline | reflexivity].
Qed.

(** The store of a completed run reads back as its pending mapping. *)
Lemma store_reads_back w config c :
  get_config (environ w) = Return config ->
  summary (main w) = Some c ->
  Forall path_parses (visited_paths config (rglob w)) ->
  exists st,
    the_walk w config = (Return tt, st)
    /\ loop_state (main w) = Some st
    /\ _load (file_after (main w)) = Return (new_checksums (tracker st))
    /\ loaded (file_after (main w)) = new_checksums (tracker st).
Proof.
  intros Hc Hs Hparse.
  destruct (main_summary w config c Hc Hs)
    as (st & _ & Hw & _ & _ & Hl & Hf & _ & Henc).
  assert (Hload : _load (file_after (main w))
                  = Return (new_checksums (tracker st))).
  { unfold the_walk in Hw.
    rewrite Hf, (load_encoded _ _ Henc). apply load_store_text.
    - apply (walk_nodup w config _ _ _ _ _ Hw). constructor.
    - apply (walk_items w config _ _ _ _ _ Hw Hparse). constructor. }
  exists st. repeat split; try assumption. now apply load_loaded.
Qed.

(* ================================================================= *)
(** ** Atomicity of [save] *)

(** C2, as stated, fails: the disk takes 40 bytes of the new store and
    then fails; the file then holds the first line of the new store and
    the first character of its second line, which is neither the store
    the run started from nor the store it was writing. *)
Lemma save_interrupted_leaves_truncated_store :
  let out := main interrupted_save in
  status out = Uncaught OSError
  /\ file_after out
     = Bytes (str "a.txt=" ++ Samples.md5_of_empty ++ Samples.nl ++ str "b")
  /\ file_after out <> checksum_file interrupted_save
  /\ (forall st bytes,
        loop_state out = Some st ->
        utf8_encode (store_text (new_checksums (tracker st))) = Return bytes ->
        file_after out <> Bytes bytes).
Proof.
  cbv zeta. split; [vm_compute; reflexivity|].
  split; [vm_compute; reflexivity|].
  split; [vm_compute; discriminate|].
  intros st bytes Hst Henc. vm_compute in Hst. injection Hst as <-.
  vm_compute in Henc. injection Henc as <-. vm_compute. discriminate.
Qed.

(** C2 (amended). [save] writes the store file in place, with no
    temporary file.  Each item is written as the line [path=fingerprint]
    followed by a line feed, encoded in UTF-8.  When [save] returns, the
    file holds these lines for the whole pending mapping.  When the file
    cannot be opened it is left as it was.  When an item cannot be encoded,
    [save] raises [UnicodeEncodeError] and the file holds the lines of the
    items before it.  When the disk fails after [n] bytes, [save] raises
    [OSError] and the file holds the first [n] bytes of what was to be
    written, which may end in the middle of a line.  Whenever the file could
    be opened, what it held before is lost. *)
Theorem save_writes_in_place (flt : fault) (self : ChecksumTracker)
    (file : file_state) :
  let line := fun item : pystr * pystr =>
                fst item ++ [61%N] ++ snd item ++ [10%N] in
  let text := fun d : dict => concat (map line d) in
  let pending := new_checksums self in
  (fst (save flt self file) = Return tt ->
   exists bytes, utf8_encode (text pending) = Return bytes
                 /\ snd (save flt self file) = Bytes bytes)
  /\ (flt = OpenFails -> save flt self file = (Raise OSError, file))
  /\ (forall done item rest bytes,
        flt = NoFault ->
        pending = done ++ item :: rest ->
        utf8_encode (text done) = Return bytes ->
        utf8_encode (line item) = Raise UnicodeEncodeError ->
        save flt self file = (Raise UnicodeEncodeError, Bytes bytes))
  /\ (forall n bytes,
        flt = DiskFails n ->
        utf8_encode (text pending) = Return bytes ->
        (n < length bytes)%nat ->
        save flt self file = (Raise OSError, Bytes (firstn n bytes)))
  /\ (forall n bytes,
        flt = DiskFails n ->
        utf8_encode (text pending) = Return bytes ->
        (length bytes <= n)%nat ->
        save flt self file = (Return tt, Bytes bytes))
  /\ (forall bytes,
        flt = NoFault ->
        utf8_encode (text pending) = Return bytes ->
        save flt self file = (Return tt, Bytes bytes))
  /\ (forall file', flt <> OpenFails -> save flt self file = save flt self file').
Proof.
  cbv zeta.
  change (fun item : pystr * pystr => fst item ++ [61%N] ++ snd item ++ [10%N])
    with store_line.
  fold (store_text (new_checksums self)).
  split; [|split; [|split; [|split; [|split; [|split]]]]].
  - intros H. destruct (save_returns flt self file H) as (He & Hf). eauto.
  - intros ->. reflexivity.
  - intros done item rest bytes -> Hp Hdone Hitem. unfold save.
    rewrite Hp, map_app. cbn [map].
    exact (f_equal (fun p : result unit * list N =>
                      let (r, buffer) := p in close NoFault r buffer)
             (write_all_stops (map store_line done) (store_line item)
                (map store_line rest) [] bytes Hdone Hitem)).
  - intros n bytes -> Henc Hn. rewrite (save_disk_fails n self file bytes Henc).
    apply Nat.ltb_lt in Hn. now rewrite Hn.
  - intros n bytes -> Henc Hn. rewrite (save_disk_fails n self file bytes Henc).
    apply Nat.ltb_ge in Hn. now rewrite Hn.
  - intros bytes -> Henc. now apply save_no_fault.
  - apply save_overwrites.
Qed.

Lemma save_writes_in_place_witness :
  save (DiskFails 40) sample_tracker Missing
  = (Raise OSError,
     Bytes (firstn 40 (store_bytes (new_checksums sample_tracker)))).
Proof.
  apply (proj1 (proj2 (proj2 (proj2
           (save_writes_in_place (DiskFails 40) sample_tracker Missing))))
           40%nat (store_bytes (new_checksums sample_tracker))).
  - reflexivity.
  - vm_compute. reflexivity.
  - apply Nat.ltb_lt. vm_compute. reflexivity.
Defined.

(* ================================================================= *)
(** ** A file that cannot be read *)

(** C3, as stated, fails: [b.txt] cannot be read; the run ends there on
    the uncaught error, [failed] is still 0, [c.txt] is never looked at
    and the store is not written. *)
Lemma read_error_is_not_counted :
  main unreadable_file
  = {| status := Uncaught OSError;
       file_after := checksum_file unreadable_file;
       loop_state :=
         Some {| tracker :=
                   {| old_checksums := [(str "a.txt", Samples.md5_of_empty)];
                      new_checksums := [(str "a.txt", Samples.md5_of_empty)] |};
                 counts := {| uploaded := 0; skipped := 1; failed := 0 |} |};
       summary := None |}.
Proof. vm_compute. reflexivity. Qed.

Lemma visit_unreadable w config u st file e :
  visited config file = true ->
  read_for_checksum file = Raise e ->
  visit w config u st file = (Raise e, st).
Proof.
  intros Hv Hr.
  pose proof (visit_cases w config u st file) as Hc.
  assert (Hg : get_checksum (read_for_checksum file) = Raise e)
    by (now rewrite Hr).
  inversion Hc; congruence.
Qed.

(** C3 (amended). When reading a visited regular file for its
    fingerprint raises an error, the error is not caught: the run ends
    at that file with the error, the counters and the pending mapping are
    as the files before it left them (so nothing is recorded for the
    path and [failed] does not move), the files after it are not
    visited, and the store file is not written. *)
Theorem read_error_aborts_run (w : World) (config : Config)
    (pre rest : list Entry) (file : Entry) (st : LoopState) (e : exn) :
  reaches_loop w config ->
  rglob w = pre ++ file :: rest ->
  walk w config (uploader_of config) pre (start w) = (Return tt, st) ->
  visited config file = true ->
  read_for_checksum file = Raise e ->
  main w = {| status := Uncaught e;
              file_after := checksum_file w;
              loop_state := Some st;
              summary := None |}
  /\ (~ In (relative_path file) (visited_paths config pre) ->
      dict_get (relative_path file) (new_checksums (tracker st)) = None).
Proof.
  intros Hreach Htree Hpre Hv Hr. split.
  - rewrite (main_loop w config Hreach). unfold the_walk.
    rewrite Htree, walk_app, Hpre, walk_cons.
    now rewrite (visit_unreadable w config (uploader_of config) st file e Hv Hr).
  - intros Hfresh.
    now rewrite (walk_get_other w config (uploader_of config) pre _ _ _ _
                   Hpre Hfresh).
Qed.

Lemma read_error_aborts_run_witness :
  main unreadable_file
  = {| status := Uncaught OSError;
       file_after := checksum_file unreadable_file;
       loop_state :=
         Some {| tracker :=
                   {| old_checksums := [(str "a.txt", Samples.md5_of_empty)];
                      new_checksums := [(str "a.txt", Samples.md5_of_empty)] |};
                 counts := {| uploaded := 0; skipped := 1; failed := 0 |} |};
       summary := None |}
  /\ (~ In (relative_path (Samples.unreadable "b.txt"))
           (visited_paths Samples.config [Samples.file "a.txt" ""]) ->
      dict_get (relative_path (Samples.unreadable "b.txt"))
               [(str "a.txt", Samples.md5_of_empty)] = None).
Proof.
  apply (read_error_aborts_run unreadable_file Samples.config
           [Samples.file "a.txt" ""] [Samples.file "c.txt" "hi"]
           (Samples.unreadable "b.txt")
           {| tracker :=
                {| old_checksums := [(str "a.txt", Samples.md5_of_empty)];
                   new_checksums := [(str "a.txt", Samples.md5_of_empty)] |};
              counts := {| uploaded := 0; skipped := 1; failed := 0 |} |}
           OSError).
  - repeat split; vm_compute; reflexivity.
  - reflexivity.
  - vm_compute. reflexivity.
  - vm_compute. reflexivity.
  - reflexivity.
Defined.

(* ================================================================= *)
(** ** Failures of [upload_file] *)

(** C4, as stated, fails: when the local file cannot be read, the call
    raises [OSError] instead of returning a boolean; and a response with
    a status outside the client and server error ranges is a success. *)
Lemma upload_file_read_error_propagates :
  upload_file scenario (uploader_of Samples.config)
              (Samples.vanishing "a.txt" "") (str "a.txt")
  = Raise OSError
  /\ upload_file (Samples.world [] Missing (Return 304%Z) NoFault)
                 (uploader_of Samples.config)
                 (Samples.file "a.txt" "") (str "a.txt")
     = Return true.
Proof. split; vm_compute; reflexivity. Qed.

(** C4 (amended). [upload_file] turns into the return value false the
    failures that are a [requests.RequestException]: a network error
    raised by the request, and an HTTP status from 400 to 599, which
    [raise_for_status] raises as [HTTPError].  An error that is not a
    [RequestException], as the [OSError] of reading the local file,
    leaves the call as an exception; any other status returns true. *)
Theorem upload_file_outcomes (w : World) (self : DatabricksUploader)
    (file : Entry) (path : pystr) :
  (forall e,
      read_for_upload file = Raise e -> is_RequestException e = false ->
      upload_file w self file path = Raise e)
  /\ (forall content e,
        read_for_upload file = Return content ->
        requests_put w (upload_url self path) (token self) content = Raise e ->
        is_RequestException e = true ->
        upload_file w self file path = Return false)
  /\ (forall content status_code,
        read_for_upload file = Return content ->
        requests_put w (upload_url self path) (token self) content
        = Return status_code ->
        (400 <= status_code < 600)%Z ->
        upload_file w self file path = Return false)
  /\ (forall content status_code,
        read_for_upload file = Return content ->
        requests_put w (upload_url self path) (token self) content
        = Return status_code ->
        ~ (400 <= status_code < 600)%Z ->
        upload_file w self file path = Return true).
Proof.
  assert (U : upload_file w self file path
              = try_except
                  (file_content <- read_for_upload file ;;
                   response <- requests_put w (upload_url self path)
                                            (token self) file_content ;;
                   raise_for_status response ;;;
                   Return true)
                  is_RequestException (Return false)) by reflexivity.
  rewrite U. clear U. unfold raise_for_status.
  repeat split.
  - intros e -> He. cbn [bind try_except]. now rewrite He.
  - intros content e -> Hp He. cbn [bind try_except]. rewrite Hp.
    cbn [bind try_except]. now rewrite He.
  - intros content sc -> Hp Hs. cbn [bind try_except]. rewrite Hp.
    cbn [bind try_except].
    replace ((400 <=? sc) && (sc <? 600))%Z with true; [reflexivity|].
    symmetry. apply andb_true_iff. split; [apply Z.leb_le | apply Z.ltb_lt]; lia.
  - intros content sc -> Hp Hs. cbn [bind try_except]. rewrite Hp.
    cbn [bind try_except].
    replace ((400 <=? sc) && (sc <? 600))%Z with false; [reflexivity|].
    symmetry. apply andb_false_iff.
    destruct (Z.leb_spec 400 sc); [right|left; reflexivity].
    apply Z.ltb_ge. lia.
Qed.

Lemma upload_file_outcomes_witness :
  upload_file scenario (uploader_of Samples.config)
              (Samples.vanishing "a.txt" "") (str "a.txt") = Raise OSError
  /\ upload_file network_down (uploader_of Samples.config)
                 (Samples.file "b.txt" "hi") (str "b.txt") = Return false
  /\ upload_file (Samples.world [] Missing (Return 503%Z) NoFault)
                 (uploader_of Samples.config)
                 (Samples.file "b.txt" "hi") (str "b.txt") = Return false
  /\ upload_file scenario (uploader_of Samples.config)
                 (Samples.file "b.txt" "hi") (str "b.txt") = Return true.
Proof.
  split; [|split; [|split]].
  - apply (proj1 (upload_file_outcomes scenario (uploader_of Samples.config)
                    (Samples.vanishing "a.txt" "") (str "a.txt")) OSError);
      reflexivity.
  - apply (proj1 (proj2 (upload_file_outcomes network_down
                           (uploader_of Samples.config)
                           (Samples.file "b.txt" "hi") (str "b.txt")))
             (bytes_of "hi") ConnectionError); reflexivity.
  - apply (proj1 (proj2 (proj2 (upload_file_outcomes
                                  (Samples.world [] Missing (Return 503%Z) NoFault)
                                  (uploader_of Samples.config)
                                  (Samples.file "b.txt" "hi") (str "b.txt"))))
             (bytes_of "hi") 503%Z); [reflexivity | reflexivity | lia].
  - apply (proj2 (proj2 (proj2 (upload_file_outcomes scenario
                                  (uploader_of Samples.config)
                                  (Samples.file "b.txt" "hi") (str "b.txt"))))
             (bytes_of "hi") 200%Z); [reflexivity | reflexivity | lia].
Defined.

(* ================================================================= *)
(** ** The counters *)

Lemma scenario_config : get_config (environ scenario) = Return Samples.config.
Proof. vm_compute. reflexivity. Qed.

(** C5. In a run that reports its counters, [uploaded], [skipped] and
    [failed] are not negative and add up to the number of regular files
    the walk visited. *)
Theorem counters_sum (w : World) (config : Config) (c : Counters) :
  get_config (environ w) = Return config ->
  summary (main w) = Some c ->
  (0 <= uploaded c /\ 0 <= skipped c /\ 0 <= failed c
   /\ uploaded c + skipped c + failed c
      = Z.of_nat (length (filter (visited config) (rglob w))))%Z.
Proof.
  intros Hc Hs.
  destruct (main_summary w config c Hc Hs) as (st & _ & Hw & _ & -> & _).
  unfold the_walk in Hw.
  pose proof (walk_counts_grow w config _ _ _ _ _ Hw) as Hg.
  pose proof (walk_total w config _ _ _ _ Hw) as Ht.
  unfold total in Ht. simpl in Hg, Ht. lia.
Qed.

Lemma counters_sum_witness :
  (0 <= 1 /\ 0 <= 1 /\ 0 <= 0
   /\ 1 + 1 + 0
      = Z.of_nat (length (filter (visited Samples.config) (rglob scenario))))%Z.
Proof.
  apply (counters_sum scenario Samples.config
           {| uploaded := 1; skipped := 1; failed := 0 |}).
  - vm_compute. reflexivity.
  - vm_compute. reflexivity.
Defined.

(* ================================================================= *)
(** ** What the run persists *)

(** C6, as stated, fails: the walk visits the one file [gone.txt=x]
    and the run completes with exit code 0; the pending mapping has the
    one path [gone.txt=x], but the store the run persisted reads back with
    the one path [gone.txt], which the previous mapping had and the walk
    did not visit. *)
Lemma stale_path_in_persisted_store :
  let out := main stale_key in
  status out = Exit 0
  /\ summary out = Some {| uploaded := 1; skipped := 0; failed := 0 |}
  /\ visited_paths Samples.config (rglob stale_key) = [str "gone.txt=x"]
  /\ keys (loaded (checksum_file stale_key)) = [str "gone.txt"]
  /\ (exists st, loop_state out = Some st
                 /\ new_checksums (tracker st)
                    = [(str "gone.txt=x", Samples.md5_of_empty)])
  /\ _load (file_after out)
     = Return [(str "gone.txt", str "x=" ++ Samples.md5_of_empty)]
  /\ In (str "gone.txt") (keys (loaded (file_after out)))
  /\ ~ In (str "gone.txt=x") (keys (loaded (file_after out))).
Proof.
  cbv zeta. split; [vm_compute; reflexivity|].
  split; [vm_compute; reflexivity|].
  split; [vm_compute; reflexivity|].
  split; [vm_compute; reflexivity|].
  split; [eexists; split; vm_compute; reflexivity|].
  split; [vm_compute; reflexivity|].
  split; [vm_compute; now left|].
  vm_compute. intros [H|[]]. discriminate H.
Qed.

(** C6 (amended). After a run that completes, the store file holds the
    lines [path=fingerprint] of the pending mapping, in UTF-8; the paths of
    the pending mapping are exactly the relative paths of the files visited
    in the walk, each once.  When no visited relative path has an '=' or a
    line ending in it or starts with white space, the persisted store,
    read with [_load], is the pending mapping: its paths are exactly the
    visited relative paths, and a path of the previous mapping that the
    walk did not visit is not in it. *)
Theorem persisted_store_is_pending (w : World) (config : Config)
    (c : Counters) :
  get_config (environ w) = Return config ->
  summary (main w) = Some c ->
  exists st,
    loop_state (main w) = Some st
    /\ old_checksums (tracker st) = loaded (checksum_file w)
    /\ (exists bytes,
          utf8_encode
            (concat (map (fun item : pystr * pystr =>
                            fst item ++ [61%N] ++ snd item ++ [10%N])
                         (new_checksums (tracker st))))
          = Return bytes
          /\ file_after (main w) = Bytes bytes)
    /\ NoDup (keys (new_checksums (tracker st)))
    /\ (forall p, In p (keys (new_checksums (tracker st)))
                  <-> In p (visited_paths config (rglob w)))
    /\ (Forall path_parses (visited_paths config (rglob w)) ->
        _load (file_after (main w)) = Return (new_checksums (tracker st))
        /\ NoDup (keys (loaded (file_after (main w))))
        /\ (forall p, In p (keys (loaded (file_after (main w))))
                      <-> In p (visited_paths config (rglob w)))
        /\ (forall p, In p (keys (loaded (checksum_file w))) ->
                      ~ In p (visited_paths config (rglob w)) ->
                      ~ In p (keys (loaded (file_after (main w))))
                      /\ dict_get p (loaded (file_after (main w))) = None)).
Proof.
  intros Hc Hs.
  destruct (main_summary w config c Hc Hs)
    as (st & _ & Hw & _ & _ & Hl & Hf & _ & Henc).
  pose proof Hw as Hw'. unfold the_walk in Hw.
  assert (Hkeys : forall p, In p (keys (new_checksums (tracker st)))
                            <-> In p (visited_paths config (rglob w))).
  { intros p. split.
    - intros H.
      destruct (walk_keys_sub w config _ _ p _ _ _ Hw H) as [[]|H']; exact H'.
    - intros H. apply (walk_keys_sup w config _ _ p _ _ Hw). now right. }
  assert (Hnd : NoDup (keys (new_checksums (tracker st))))
    by (apply (walk_nodup w config _ _ _ _ _ Hw); constructor).
  exists st.
  split; [exact Hl|].
  split; [apply (walk_old w config _ _ _ _ _ Hw)|].
  split; [exists (store_bytes (new_checksums (tracker st)));
          split; [exact Henc | exact Hf]|].
  split; [exact Hnd|]. split; [exact Hkeys|].
  intros Hparse.
  destruct (store_reads_back w config c Hc Hs Hparse)
    as (st' & Hw'' & _ & Hload & Hloaded).
  replace st' with st in * by congruence.
  rewrite Hloaded.
  split; [exact Hload|]. split; [exact Hnd|]. split; [exact Hkeys|].
  intros p _ Hnot.
  assert (Hout : ~ In p (keys (new_checksums (tracker st))))
    by (intros Hin; apply Hnot; now apply Hkeys).
  split; [exact Hout|].
  destruct (dict_get p (new_checksums (tracker st))) as [v|] eqn:Hg;
    [|reflexivity].
  exfalso. apply Hout. apply dict_get_In in Hg.
  unfold keys. apply in_map_iff. exists (p, v). split; [reflexivity|exact Hg].
Qed.

Lemma persisted_store_is_pending_witness :
  exists st,
    loop_state (main deleted_file) = Some st
    /\ old_checksums (tracker st) = loaded (checksum_file deleted_file)
    /\ (exists bytes,
          utf8_encode
            (concat (map (fun item : pystr * pystr =>
                            fst item ++ [61%N] ++ snd item ++ [10%N])
                         (new_checksums (tracker st))))
          = Return bytes
          /\ file_after (main deleted_file) = Bytes bytes)
    /\ NoDup (keys (new_checksums (tracker st)))
    /\ (forall p, In p (keys (new_checksums (tracker st)))
                  <-> In p (visited_paths Samples.config (rglob deleted_file)))
    /\ (Forall path_parses (visited_paths Samples.config (rglob deleted_file)) ->
        _load (file_after (main deleted_file))
        = Return (new_checksums (tracker st))
        /\ NoDup (keys (loaded (file_after (main deleted_file))))
        /\ (forall p, In p (keys (loaded (file_after (main deleted_file))))
                      <-> In p (visited_paths Samples.config
                                  (rglob deleted_file)))
        /\ (forall p, In p (keys (loaded (checksum_file deleted_file))) ->
                      ~ In p (visited_paths Samples.config
                                (rglob deleted_file)) ->
                      ~ In p (keys (loaded (file_after (main deleted_file))))
                      /\ dict_get p (loaded (file_after (main deleted_file)))
                         = None)).
Proof.
  apply (persisted_store_is_pending deleted_file Samples.config
           {| uploaded := 0; skipped := 1; failed := 0 |}).
  - vm_compute. reflexivity.
  - vm_compute. reflexivity.
Defined.

(** The deleted file of [deleted_file] is gone from the store. *)
Example deleted_file_store :
  loaded (checksum_file deleted_file)
  = [(str "gone.txt", Samples.md5_of_hi); (str "a.txt", Samples.md5_of_empty)]
  /\ file_after (main deleted_file)
     = Bytes (str "a.txt=" ++ Samples.md5_of_empty ++ Samples.nl).
Proof. split; vm_compute; reflexivity. Qed.

(* ================================================================= *)
(** ** A failed upload *)

Lemma visit_changed w config u st file c b :
  visited config file = true ->
  get_checksum (read_for_checksum file) = Return c ->
  differs (old_checksums (tracker st)) (relative_path file) c = true ->
  upload_file w u file (relative_path file) = Return b ->
  visit w config u st file
  = (Return tt,
     {| tracker := recorded (tracker st) (relative_path file) c;
        counts := if b then bump_uploaded (counts st)
                  else bump_failed (counts st) |}).
Proof.
  intros Hv Hc Hd Hu.
  pose proof (visit_cases w config u st file) as Hcase.
  inversion Hcase as [Hv' E | e Hv' Hr E | c' Hv' Hr Hd' E | c' Hv' Hr Hd' Hu' E
                      | c' Hv' Hr Hd' Hu' E | c' e Hv' Hr Hd' Hu' E];
    try congruence.
  - replace c' with c in * by congruence.
    replace b with true by congruence. reflexivity.
  - replace c' with c in * by congruence.
    replace b with false by congruence. reflexivity.
Qed.

Lemma visit_upload_raised w config u st file c e :
  visited config file = true ->
  get_checksum (read_for_checksum file) = Return c ->
  differs (old_checksums (tracker st)) (relative_path file) c = true ->
  upload_file w u file (relative_path file) = Raise e ->
  visit w config u st file
  = (Raise e,
     {| tracker := recorded (tracker st) (relative_path file) c;
        counts := counts st |}).
Proof.
  intros Hv Hc Hd Hu.
  pose proof (visit_cases w config u st file) as Hcase.
  inversion Hcase as [Hv' E | e' Hv' Hr E | c' Hv' Hr Hd' E | c' Hv' Hr Hd' Hu' E
                      | c' Hv' Hr Hd' Hu' E | c' e' Hv' Hr Hd' Hu' E];
    congruence.
Qed.

(** C8. A visited file that is classified as changed has its
    fingerprint stored in the pending mapping whatever the upload does:
    the iteration leaves the tracker with the fingerprint recorded when
    [upload_file] returns true, when it returns false, and even when it
    raises; an upload that returns false adds one to [failed].  So,
    after a run that completes, the store file holds the line
    [path=fingerprint] of a file whose upload failed (and, when the visited
    paths parse, [_load] finds that fingerprint under that path in the
    file), and the run ends with a positive [failed] and exit code 1. *)
Theorem failed_upload_is_recorded (w : World) (config : Config)
    (file : Entry) (checksum : pystr) :
  visited config file = true ->
  get_checksum (read_for_checksum file) = Return checksum ->
  (forall st b,
      differs (old_checksums (tracker st)) (relative_path file) checksum = true ->
      upload_file w (uploader_of config) file (relative_path file) = Return b ->
      visit w config (uploader_of config) st file
      = (Return tt,
         {| tracker := recorded (tracker st) (relative_path file) checksum;
            counts := if b then bump_uploaded (counts st)
                      else bump_failed (counts st) |}))
  /\ (forall st e,
        differs (old_checksums (tracker st)) (relative_path file) checksum = true ->
        upload_file w (uploader_of config) file (relative_path file) = Raise e ->
        visit w config (uploader_of config) st file
        = (Raise e,
           {| tracker := recorded (tracker st) (relative_path file) checksum;
              counts := counts st |}))
  /\ (forall c,
        get_config (environ w) = Return config ->
        summary (main w) = Some c ->
        NoDup (visited_paths config (rglob w)) ->
        In file (rglob w) ->
        differs (loaded (checksum_file w)) (relative_path file) checksum = true ->
        upload_file w (uploader_of config) file (relative_path file)
        = Return false ->
        exists st,
          loop_state (main w) = Some st
          /\ dict_get (relative_path file) (new_checksums (tracker st))
             = Some checksum
          /\ In (relative_path file, checksum) (new_checksums (tracker st))
          /\ (exists before line after,
                utf8_encode (relative_path file ++ [61%N] ++ checksum ++ [10%N])
                = Return line
                /\ file_after (main w) = Bytes (before ++ line ++ after))
          /\ (Forall path_parses (visited_paths config (rglob w)) ->
              exists persisted,
                _load (file_after (main w)) = Return persisted
                /\ dict_get (relative_path file) persisted = Some checksum)
          /\ (0 < failed c)%Z
          /\ exit_code (status (main w)) = 1%Z).
Proof.
  intros Hv Hsum. split; [|split].
  - intros st b Hd Hu. now apply visit_changed.
  - intros st e Hd Hu. now apply visit_upload_raised.
  - intros c Hc Hs Hnd Hin Hd Hu.
    destruct (main_summary w config c Hc Hs)
      as (st & _ & Hw & _ & -> & Hl & Hf & Hst & Henc).
    pose proof Hw as Hw'. unfold the_walk in Hw.
    pose proof (walk_get w config _ _ _ _ Hw Hnd file checksum Hin Hv Hsum)
      as Hget.
    pose proof (walk_failed w config _ _ _ _ Hw file checksum Hin Hv Hsum Hd Hu)
      as Hlt.
    simpl in Hlt.
    exists st.
    split; [exact Hl|]. split; [exact Hget|].
    split; [now apply dict_get_In|].
    split.
    { destruct (store_bytes_item _ _ _ _ (dict_get_In _ _ _ Hget) Henc)
        as (before & line & after & Hline & Hbytes).
      exists before, line, after. split; [exact Hline|].
      rewrite Hf. now rewrite Hbytes. }
    split.
    { intros Hparse.
      destruct (store_reads_back w config (counts st) Hc Hs Hparse)
        as (st' & Hw'' & _ & Hload & _).
      replace st' with st in * by congruence.
      exists (new_checksums (tracker st)). split; [exact Hload | exact Hget]. }
    split; [exact Hlt|].
    rewrite Hst.
    replace (failed (counts st) >? 0)%Z with true; [reflexivity|].
    symmetry. apply Z.gtb_lt. exact Hlt.
Qed.

Lemma failed_upload_is_recorded_witness :
  visit network_down Samples.config (uploader_of Samples.config)
        (start network_down) (Samples.file "b.txt" "hi")
  = (Return tt,
     {| tracker := recorded (tracker (start network_down))
                     (relative_path (Samples.file "b.txt" "hi"))
                     Samples.md5_of_hi;
        counts := bump_failed (counts (start network_down)) |})
  /\ exists st,
       loop_state (main network_down) = Some st
       /\ dict_get (relative_path (Samples.file "b.txt" "hi"))
                   (new_checksums (tracker st)) = Some Samples.md5_of_hi
       /\ In (relative_path (Samples.file "b.txt" "hi"), Samples.md5_of_hi)
             (new_checksums (tracker st))
       /\ (exists before line after,
             utf8_encode (relative_path (Samples.file "b.txt" "hi")
                          ++ [61%N] ++ Samples.md5_of_hi ++ [10%N])
             = Return line
             /\ file_after (main network_down) = Bytes (before ++ line ++ after))
       /\ (Forall path_parses
             (visited_paths Samples.config (rglob network_down)) ->
           exists persisted,
             _load (file_after (main network_down)) = Return persisted
             /\ dict_get (relative_path (Samples.file "b.txt" "hi")) persisted
                = Some Samples.md5_of_hi)
       /\ (0 < 1)%Z
       /\ exit_code (status (main network_down)) = 1%Z.
Proof.
  assert (Hv : visited Samples.config (Samples.file "b.txt" "hi") = true)
    by (vm_compute; reflexivity).
  assert (Hsum : get_checksum (read_for_checksum (Samples.file "b.txt" "hi"))
                 = Return Samples.md5_of_hi)
    by (vm_compute; reflexivity).
  destruct (failed_upload_is_recorded network_down Samples.config
              (Samples.file "b.txt" "hi") Samples.md5_of_hi Hv Hsum)
    as (Hone & _ & Hrun).
  split.
  - apply (Hone (start network_down) false); vm_compute; reflexivity.
  - apply (Hrun {| uploaded := 0; skipped := 1; failed := 1 |}).
    + vm_compute. reflexivity.
    + vm_compute. reflexivity.
    + nodup_strings.
    + simpl. right. left. reflexivity.
    + vm_compute. reflexivity.
    + vm_compute. reflexivity.
Defined.

(* ================================================================= *)
(** ** The exit code *)


Lemma get_config_missing env :
  filter (unset env) required <> [] -> get_config env = Raise OSError.
Proof.
  intros H. unfold get_config.
  destruct (filter (unset env) required); [congruence | reflexivity].
Qed.





(* ================================================================= *)
(** ** Running twice *)

(** C7, as stated, fails: the tree holds one file, [a=b.txt]; the first
    run uploads it and writes the store; read back, the line gives the
    path [a], so the second run, on the same tree, uploads the file
    again. *)
Lemma second_run_uploads_again :
  summary (main (first_run "a=b.txt"))
  = Some {| uploaded := 1; skipped := 0; failed := 0 |}
  /\ status (main (first_run "a=b.txt")) = Exit 0
  /\ checksum_file (second_run "a=b.txt")
     = Bytes (str "a=b.txt=" ++ Samples.md5_of_empty ++ Samples.nl)
  /\ loaded (checksum_file (second_run "a=b.txt"))
     = [(str "a", str "b.txt=" ++ Samples.md5_of_empty)]
  /\ rglob (second_run "a=b.txt") = rglob (first_run "a=b.txt")
  /\ summary (main (second_run "a=b.txt"))
     = Some {| uploaded := 1; skipped := 0; failed := 0 |}.
Proof. repeat split; vm_compute; reflexivity. Qed.

Lemma same_file_visited config e1 e2 :
  same_file e1 e2 -> visited config e1 = visited config e2.
Proof.
  intros (Hp & Hf & _). unfold visited, parts. now rewrite Hp, Hf.
Qed.

Lemma same_file_path e1 e2 :
  same_file e1 e2 -> relative_path e1 = relative_path e2.
Proof. intros (Hp & _). unfold relative_path. now rewrite Hp. Qed.

Lemma same_tree_In t1 t2 :
  same_tree t1 t2 ->
  forall e2, In e2 t2 -> exists e1, In e1 t1 /\ same_file e1 e2.
Proof.
  induction 1 as [|a b t1 t2 Hab _ IH]; intros e2 Hin; [destruct Hin|].
  destruct Hin as [<-|Hin].
  - exists a. split; [now left | exact Hab].
  - destruct (IH _ Hin) as (e1 & H1 & Hs). exists e1. split; [now right | exact Hs].
Qed.

Lemma record_all_same_tree config t1 t2 :
  same_tree t1 t2 -> forall d, record_all config t1 d = record_all config t2 d.
Proof.
  induction 1 as [|a b t1 t2 Hab _ IH]; intros d; [reflexivity|].
  rewrite !record_all_cons, (same_file_visited config a b Hab),
    (same_file_path a b Hab).
  unfold fingerprint_of. destruct Hab as (_ & _ & ->).
  now rewrite !IH.
Qed.

(** C7 (amended). Idempotence, for paths that the store file can hold:
    when a first run completes and writes the store, every visited
    relative path has no '=', no line ending and no leading white space,
    and a second run starts from that store on the same tree with the
    same file contents, the second run completes its walk with
    [uploaded] 0, [failed] 0 and every visited file counted in
    [skipped]; if its [save] meets no fault, it reports these counters
    and exits with code 0. *)
Theorem second_run_skips_everything (w1 w2 : World) (config : Config)
    (c1 : Counters) :
  get_config (environ w1) = Return config ->
  summary (main w1) = Some c1 ->
  get_config (environ w2) = Return config
  /\ mkdir_log_dir w2 = Return tt
  /\ git_sync w2 config = Return true ->
  checksum_file w2 = file_after (main w1) ->
  same_tree (rglob w1) (rglob w2) ->
  NoDup (visited_paths config (rglob w1)) ->
  Forall path_parses (visited_paths config (rglob w1)) ->
  exists st2,
    the_walk w2 config = (Return tt, st2)
    /\ loop_state (main w2) = Some st2
    /\ uploaded (counts st2) = 0%Z
    /\ failed (counts st2) = 0%Z
    /\ skipped (counts st2)
       = Z.of_nat (length (filter (visited config) (rglob w2)))
    /\ (save_fault w2 = NoFault ->
        summary (main w2) = Some (counts st2) /\ status (main w2) = Exit 0).
Proof.
  intros Hc1 Hs1 (Hc2 & Hl2 & Hg2) Hfile Htree Hnd Hparse.
  destruct (main_summary w1 config c1 Hc1 Hs1)
    as (st1 & _ & Hw1 & _ & _ & _ & Hf1 & _ & Henc1).
  unfold the_walk in Hw1.
  assert (Hreach2 : reaches_loop w2 config).
  { repeat split; try assumption. rewrite Hfile.
    destruct (store_reads_back w1 config c1 Hc1 Hs1 Hparse)
      as (st & _ & _ & Hload & _).
    now apply (loaded_returns _ _ Hload). }
  (* the store of the first run reads back as its pending mapping *)
  assert (Hold : loaded (checksum_file w2) = new_checksums (tracker st1)).
  { rewrite Hfile.
    destruct (store_reads_back w1 config c1 Hc1 Hs1 Hparse)
      as (st & Hw & _ & _ & Hloaded).
    unfold the_walk in Hw. congruence. }
  (* so every file of the second walk is found unchanged *)
  destruct (walk_unchanged w2 config (uploader_of config) (rglob w2) (start w2))
    as (st2 & Hw2 & Hu & Hfl & Hsk).
  { intros f2 Hin2 Hv2. simpl. rewrite Hold.
    destruct (same_tree_In _ _ Htree f2 Hin2) as (f1 & Hin1 & Hsame).
    assert (Hv1 : visited config f1 = true)
      by (now rewrite (same_file_visited config f1 f2 Hsame)).
    destruct (walk_reads w1 config _ _ _ _ Hw1 f1 Hin1 Hv1) as (c & Hread).
    exists c. split.
    - destruct Hsame as (_ & _ & <-). exact Hread.
    - rewrite <- (same_file_path f1 f2 Hsame).
      apply (walk_get w1 config _ _ _ _ Hw1 Hnd f1 c Hin1 Hv1 Hread). }
  (* and the second run has the same store to write *)
  assert (Hsame : new_checksums (tracker st2) = new_checksums (tracker st1)).
  { destruct (walk_completed w1 config _ _ _ _ Hw1) as (_ & _ & _ & H1).
    destruct (walk_completed w2 config _ _ _ _ Hw2) as (_ & _ & _ & H2).
    rewrite H1, H2. simpl. symmetry. now apply record_all_same_tree. }
  exists st2. simpl in Hu, Hfl, Hsk.
  assert (Hmain := main_loop w2 config Hreach2).
  unfold the_walk in Hmain |- *. rewrite Hw2 in Hmain.
  assert (Hsave : save NoFault (tracker st2) (checksum_file w2)
                  = (Return tt,
                     Bytes (store_bytes (new_checksums (tracker st1))))).
  { apply save_no_fault. now rewrite Hsame. }
  repeat split; try assumption.
  - rewrite Hmain.
    now destruct (save (save_fault w2) (tracker st2) (checksum_file w2))
      as [[[]|e] file].
  - rewrite Hmain, H, Hsave. reflexivity.
  - rewrite Hmain, H, Hsave. simpl. now rewrite Hfl.
Qed.

Lemma second_run_skips_everything_witness :
  exists st2,
    the_walk (second_run "a.txt") Samples.config = (Return tt, st2)
    /\ loop_state (main (second_run "a.txt")) = Some st2
    /\ uploaded (counts st2) = 0%Z
    /\ failed (counts st2) = 0%Z
    /\ skipped (counts st2)
       = Z.of_nat (length (filter (visited Samples.config)
                                  (rglob (second_run "a.txt"))))
    /\ (save_fault (second_run "a.txt") = NoFault ->
        summary (main (second_run "a.txt")) = Some (counts st2)
        /\ status (main (second_run "a.txt")) = Exit 0).
Proof.
  apply (second_run_skips_everything (first_run "a.txt") (second_run "a.txt")
           Samples.config {| uploaded := 1; skipped := 0; failed := 0 |}).
  - vm_compute. reflexivity.
  - vm_compute. reflexivity.
  - repeat split; vm_compute; reflexivity.
  - reflexivity.
  - repeat constructor.
  - nodup_strings.
  - constructor; [|constructor].
    repeat split; not_in_string.
Defined.

(* ================================================================= *)
(** * Further properties of the code *)

(* ================================================================= *)
(** ** More facts about strings *)

Section StripFacts.

Implicit Types (s t : pystr) (c : N).

Lemma lstrip_app s t :
  lstrip (s ++ t) = match lstrip s with
                    | [] => lstrip t
                    | _ :: _ => lstrip s ++ t
                    end.
Proof.
  induction s as [|c s IH]; simpl; [now destruct (lstrip t)|].
  destruct (isspace c); [exact IH | reflexivity].
Qed.

Lemma lstrip_idem s : lstrip (lstrip s) = lstrip s.
Proof.
  induction s as [|c s IH]; simpl; [reflexivity|].
  destruct (isspace c) eqn:E; [exact IH | simpl; now rewrite E].
Qed.

Lemma lstrip_sub c s : In c (lstrip s) -> In c s.
Proof.
  induction s as [|a s IH]; simpl; [easy|].
  destruct (isspace a); [intros H; right; now apply IH | easy].
Qed.

(** [rstrip], by recursion on the string. *)
Lemma rstrip_cons c s :
  rstrip (c :: s) = match rstrip s with
                    | [] => if isspace c then [] else [c]
                    | _ :: _ => c :: rstrip s
                    end.
Proof.
  unfold rstrip. simpl rev. rewrite lstrip_app.
  destruct (lstrip (rev s)) as [|a l] eqn:E.
  - simpl. now destruct (isspace c).
  - rewrite rev_unit. destruct (rev (a :: l)) eqn:E'; [|reflexivity].
    simpl in E'. now apply app_eq_nil in E' as [_ ?].
Qed.

Lemma rstrip_nil : rstrip [] = [].
Proof. reflexivity. Qed.

Lemma rstrip_sub c s : In c (rstrip s) -> In c s.
Proof.
  induction s as [|a s IH]; [easy|].
  rewrite rstrip_cons. destruct (rstrip s) as [|b r].
  - destruct (isspace a); simpl; tauto.
  - simpl. intros [H|H]; [now left | right; apply IH; exact H].
Qed.

Lemma strip_sub c s : In c (strip s) -> In c s.
Proof. intros H. now apply lstrip_sub, rstrip_sub. Qed.

Lemma rstrip_idem s : rstrip (rstrip s) = rstrip s.
Proof.
  unfold rstrip. now rewrite rev_involutive, lstrip_idem.
Qed.

(** A trailing white space character does not count. *)
Lemma rstrip_app_space s c : isspace c = true -> rstrip (s ++ [c]) = rstrip s.
Proof.
  intros Hc. unfold rstrip. rewrite rev_app_distr.
  cbn [rev app lstrip]. now rewrite Hc.
Qed.

Lemma lstrip_rstrip_fixed s : lstrip s = s -> lstrip (rstrip s) = rstrip s.
Proof.
  destruct s as [|c s]; [reflexivity|].
  intros H. apply lstrip_fixed_head in H.
  rewrite rstrip_cons.
  destruct (rstrip s); rewrite ?H; cbn [lstrip]; now rewrite H.
Qed.

Lemma strip_lstrip_fixed s : lstrip (strip s) = strip s.
Proof. apply lstrip_rstrip_fixed, lstrip_idem. Qed.

Lemma strip_rstrip_fixed s : rstrip (strip s) = strip s.
Proof. apply rstrip_idem. Qed.

(** The line ending does not survive [strip]. *)
Lemma strip_line_ending s : strip (s ++ [LF]) = strip s.
Proof.
  unfold strip. rewrite lstrip_app.
  destruct (lstrip s) as [|a l] eqn:E; [reflexivity|].
  now rewrite rstrip_app_space.
Qed.

Lemma rstrip_fixed_suffix s t : rstrip (s ++ t) = s ++ t -> rstrip t = t.
Proof.
  induction s as [|a s IH]; [easy|].
  simpl app. rewrite rstrip_cons.
  destruct (rstrip (s ++ t)) as [|b r] eqn:E.
  - destruct (isspace a); [discriminate|].
    intros [= H]. symmetry in H. apply app_eq_nil in H as [_ ->]. reflexivity.
  - intros [= H]. apply IH. exact H.
Qed.

Lemma lstrip_fixed_prefix s t : lstrip (s ++ t) = s ++ t -> s <> [] -> lstrip s = s.
Proof.
  destruct s as [|a s]; [congruence|].
  intros H _. simpl in H |- *.
  destruct (isspace a) eqn:E; [|reflexivity].
  pose proof (lstrip_length (s ++ t)) as L. rewrite H in L. simpl in L. lia.
Qed.

Lemma split1_inv sep s a b :
  split1 sep s = [a; b] -> s = a ++ sep :: b /\ ~ In sep a.
Proof.
  revert a. induction s as [|c s IH]; intros a; simpl; [discriminate|].
  destruct (N.eqb_spec c sep) as [->|E].
  - intros [= <- <-]. simpl. tauto.
  - destruct (split1 sep s) as [|h t] eqn:Es; [discriminate|].
    intros [= <- ->]. destruct (IH h eq_refl) as (-> & Hn).
    split; [reflexivity|]. simpl. intuition congruence.
Qed.

End StripFacts.

(* ================================================================= *)
(** ** What [_load] reads *)

Section LoadFacts.

Lemma translate_newlines_no_CR_len n : forall s,
  length s <= n -> ~ In CR (translate_newlines s).
Proof.
  induction n as [|n IH]; intros s Hn.
  - destruct s; [simpl; tauto | simpl in Hn; lia].
  - destruct s as [|c s]; [simpl; tauto|].
    simpl in Hn. simpl translate_newlines.
    destruct (N.eqb_spec c CR) as [E|E].
    + destruct s as [|d s].
      * simpl. intros [H|[]]. discriminate H.
      * simpl in Hn.
        destruct (N.eqb d LF); intros [H|H]; try discriminate H;
          revert H; apply IH; simpl; lia.
    + intros [H|H]; [congruence|]. revert H. apply IH. lia.
Qed.

Lemma translate_newlines_no_CR s : ~ In CR (translate_newlines s).
Proof. apply (translate_newlines_no_CR_len (length s)). lia. Qed.

(** A line is a text without line feed, followed by one or not. *)
Lemma keepends_line_shape s : forall l,
  In l (keepends s) ->
  exists body,
    ~ In LF body
    /\ (l = body ++ [LF] \/ l = body)
    /\ (forall c, In c body -> In c s).
Proof.
  induction s as [|c s IH]; intros l Hl; [destruct Hl|].
  simpl in Hl. destruct (N.eqb_spec c LF) as [E|E].
  - destruct Hl as [<-|Hl].
    + exists []. simpl. tauto.
    + destruct (IH l Hl) as (body & Hb & Hs & Hsub).
      exists body. repeat split; try assumption.
      intros x Hx. right. now apply Hsub.
  - destruct (keepends s) as [|l0 ls] eqn:Ek.
    + destruct Hl as [<-|[]]. exists [c]. simpl. intuition congruence.
    + destruct Hl as [<-|Hl].
      * destruct (IH l0 (or_introl eq_refl)) as (body & Hb & Hs & Hsub).
        exists (c :: body). repeat split.
        -- simpl. intuition congruence.
        -- destruct Hs as [->| ->]; [now left | now right].
        -- intros x [<-|Hx]; [now left | right; now apply Hsub].
      * destruct (IH l (or_intror Hl)) as (body & Hb & Hs & Hsub).
        exists body. repeat split; try assumption.
        intros x Hx. right. now apply Hsub.
Qed.

(** Once stripped, a line of a text file has no line ending. *)
Lemma readlines_strip content l :
  In l (readlines content) ->
  ~ In LF (strip l) /\ ~ In CR (strip l).
Proof.
  unfold readlines. intros Hl.
  destruct (keepends_line_shape _ l Hl) as (body & Hb & Hs & Hsub).
  assert (Hcr : ~ In CR body).
  { intros H. apply Hsub in H. now apply translate_newlines_no_CR in H. }
  assert (E : strip l = strip body).
  { destruct Hs as [->| ->]; [apply strip_line_ending | reflexivity]. }
  rewrite E. split; intros H; apply strip_sub in H; tauto.
Qed.

Lemma parse_line_parses content l item :
  In l (readlines content) -> parse_line l = Some item -> item_parses item.
Proof.
  intros Hl. unfold parse_line.
  destruct (contains EQ l); [|discriminate].
  destruct (split1 EQ (strip l)) as [|p [|c [|x t]]] eqn:Es; try discriminate.
  intros [= <-].
  apply split1_inv in Es as (Es & Hp).
  destruct (readlines_strip content l Hl) as (Hlf & Hcr).
  pose proof (strip_lstrip_fixed l) as Hl1.
  pose proof (strip_rstrip_fixed l) as Hr1.
  rewrite Es in Hlf, Hcr, Hl1, Hr1.
  repeat split; simpl.
  - exact Hp.
  - intros H. apply Hlf. apply in_or_app. now left.
  - intros H. apply Hcr. apply in_or_app. now left.
  - destruct p as [|a p]; [reflexivity|].
    now apply (lstrip_fixed_prefix (a :: p) (EQ :: c)).
  - intros H. apply Hlf. apply in_or_app. right. now right.
  - intros H. apply Hcr. apply in_or_app. right. now right.
  - apply (rstrip_fixed_suffix (p ++ [EQ]) c). now rewrite <- app_assoc.
Qed.

Lemma load_line_parse old line :
  load_line old line
  = Return match parse_line line with
           | Some item => dict_set (fst item) (snd item) old
           | None => old
           end.
Proof.
  unfold load_line, parse_line.
  destruct (contains EQ line) eqn:E; [|reflexivity].
  apply contains_In in E.
  destruct (split1_In EQ (strip line)) as (a & b & ->); [|reflexivity].
  now apply strip_In.
Qed.

Lemma for_each_load_line_entries lines : forall acc,
  for_each load_line lines acc
  = Return (fold_left (fun d item => dict_set (fst item) (snd item) d)
              (flat_map (fun line => match parse_line line with
                                     | Some item => [item]
                                     | None => []
                                     end) lines)
              acc).
Proof.
  induction lines as [|l lines IH]; intros acc; [reflexivity|].
  simpl. rewrite load_line_parse. simpl. rewrite IH.
  destruct (parse_line l); reflexivity.
Qed.

Lemma load_entries content :
  load_text content
  = Return (fold_left (fun d item => dict_set (fst item) (snd item) d)
              (entries content) []).
Proof. apply for_each_load_line_entries. Qed.

Lemma entries_parse content : Forall item_parses (entries content).
Proof.
  apply Forall_forall. intros item H. unfold entries in H.
  apply in_flat_map in H as (l & Hl & Hi).
  destruct (parse_line l) as [item'|] eqn:E; [|destruct Hi].
  destruct Hi as [<-|[]]. now apply (parse_line_parses content l).
Qed.

Lemma fold_dict_set_invariant (P : pystr * pystr -> Prop) items : forall acc,
  Forall P items -> Forall P acc -> NoDup (keys acc) ->
  Forall P (fold_left (fun d item => dict_set (fst item) (snd item) d) items acc)
  /\ NoDup (keys (fold_left (fun d item => dict_set (fst item) (snd item) d)
                    items acc)).
Proof.
  induction items as [|[k v] items IH]; intros acc Hi Ha Hn; [now split|].
  inversion Hi; subst. simpl. apply IH; try assumption.
  - now apply Forall_dict_set.
  - now apply NoDup_dict_set.
Qed.

Lemma dict_get_dict_set k v d q :
  dict_get q (dict_set k v d) = if pystr_eqb k q then Some v else dict_get q d.
Proof.
  unfold pystr_eqb. destruct (pystr_eq_dec k q) as [->|E].
  - apply dict_get_set_same.
  - apply dict_get_set_other. congruence.
Qed.

Lemma dict_get_fold path items : forall acc,
  dict_get path
    (fold_left (fun d item => dict_set (fst item) (snd item) d) items acc)
  = match last_value path items with
    | Some v => Some v
    | None => dict_get path acc
    end.
Proof.
  induction items as [|[k v] items IH] using rev_ind; intros acc;
    [reflexivity|].
  rewrite fold_left_app. simpl. rewrite dict_get_dict_set.
  unfold last_value. rewrite rev_unit. simpl.
  destruct (pystr_eqb k path); [reflexivity|].
  rewrite IH. reflexivity.
Qed.

Lemma translate_newlines_sub_len n : forall s c,
  length s <= n -> In c (translate_newlines s) -> In c s \/ c = LF.
Proof.
  induction n as [|n IH]; intros s c Hn.
  - destruct s; [simpl; tauto | simpl in Hn; lia].
  - destruct s as [|a s]; [simpl; tauto|].
    simpl in Hn. simpl translate_newlines.
    destruct (N.eqb_spec a CR) as [E|E].
    + destruct s as [|d s].
      * intros [H|[]]. now right.
      * simpl in Hn.
        destruct (N.eqb d LF); (intros [H|H]; [now right|]);
          apply IH in H; simpl; try lia; simpl in H; tauto.
    + intros [H|H]; [left; now left|].
      apply IH in H; [|lia]. simpl. tauto.
Qed.

Lemma translate_newlines_sub s c :
  In c (translate_newlines s) -> In c s \/ c = LF.
Proof. apply (translate_newlines_sub_len (length s)). lia. Qed.

(** The characters of a pair come from the file. *)
Lemma parse_line_chars content l item c :
  In l (readlines content) -> parse_line l = Some item ->
  In c (fst item) \/ In c (snd item) -> In c content \/ c = LF.
Proof.
  intros Hl Hparse Hc.
  assert (Hin : In c l).
  { unfold parse_line in Hparse.
    destruct (contains EQ l); [|discriminate].
    destruct (split1 EQ (strip l)) as [|p [|v [|x t]]] eqn:Es;
      try discriminate.
    injection Hparse as <-. simpl in Hc.
    apply split1_inv in Es as (Es & _).
    apply strip_sub. rewrite Es. apply in_or_app.
    destruct Hc as [Hc|Hc]; [now left | right; now right]. }
  unfold readlines in Hl.
  destruct (keepends_line_shape _ l Hl) as (body & _ & Hs & Hsub).
  assert (Hbody : In c body \/ c = LF).
  { destruct Hs as [->| ->]; [|now left].
    apply in_app_or in Hin as [H|[H|[]]]; [now left | now right]. }
  destruct Hbody as [Hb|Hb]; [|now right].
  now apply translate_newlines_sub, Hsub.
Qed.

Lemma entries_encodable content :
  forallb encodable content = true -> Forall encodable_item (entries content).
Proof.
  intros Henc. rewrite forallb_forall in Henc.
  apply Forall_forall. intros item H. unfold entries in H.
  apply in_flat_map in H as (l & Hl & Hi).
  destruct (parse_line l) as [item'|] eqn:E; [|destruct Hi].
  destruct Hi as [<-|[]].
  split; apply forallb_forall; intros c Hc;
    (destruct (parse_line_chars content l item' c Hl E) as [H| ->];
     [tauto | now apply Henc | reflexivity]).
Qed.

End LoadFacts.

(** What a checksum file that could be read gives. *)
Lemma load_shape (file : file_state) (old : dict) :
  _load file = Return old ->
  NoDup (keys old) /\ Forall item_parses old /\ Forall encodable_item old.
Proof.
  destruct file as [|e|bytes]; cbn [_load].
  - intros [= <-]. repeat split; constructor.
  - discriminate.
  - destruct (utf8_decode bytes) as [content|e] eqn:Ed; cbn [bind];
      [|discriminate].
    fold (load_text content). rewrite load_entries. intros [= <-].
    pose proof (utf8_decode_encodable bytes content Ed) as Henc.
    destruct (fold_dict_set_invariant
                (fun item => item_parses item /\ encodable_item item)
                (entries content) []) as (Hp & Hn).
    + apply Forall_forall. intros item Hi. split.
      * pose proof (entries_parse content) as H.
        rewrite Forall_forall in H. now apply H.
      * pose proof (entries_encodable content Henc) as H.
        rewrite Forall_forall in H. now apply H.
    + constructor.
    + constructor.
    + split; [exact Hn|].
      split; eapply Forall_impl; try exact Hp; simpl; tauto.
Qed.

(** X1. [_load] raises only when the checksum file cannot be opened or
    is not UTF-8: a missing file gives the empty mapping; a file that
    cannot be opened raises the error of [open]; bytes that are not UTF-8
    raise [UnicodeDecodeError]; and any text gives a mapping, whatever its
    lines are, with one entry per path, whose paths have no '=', no line
    ending and no leading white space and whose fingerprints have no line
    ending and no trailing white space. *)
Theorem load_outcomes (file : file_state) :
  match file with
  | Missing => _load file = Return []
  | Unopenable e => _load file = Raise e
  | Bytes bytes =>
      match utf8_decode bytes with
      | Raise _ => _load file = Raise UnicodeDecodeError
      | Return content =>
          exists old,
            _load file = Return old
            /\ old = fold_left (fun d item => dict_set (fst item) (snd item) d)
                               (entries content) []
            /\ NoDup (keys old)
            /\ Forall item_parses old
      end
  end.
Proof.
  destruct file as [|e|bytes]; try reflexivity.
  destruct (utf8_decode bytes) as [content|e] eqn:Ed.
  - assert (Hl : _load (Bytes bytes)
                 = Return (fold_left
                             (fun d item => dict_set (fst item) (snd item) d)
                             (entries content) [])).
    { rewrite (load_bytes bytes content Ed). apply load_entries. }
    eexists. split; [exact Hl|]. split; [reflexivity|].
    destruct (load_shape _ _ Hl) as (Hn & Hp & _). now split.
  - now apply (load_undecodable bytes e).
Qed.

(** X2. [_load] skips the lines that have no '=': the mapping it
    returns is the one of the lines that have one. *)
Theorem load_skips_lines_without_separator (bytes : list N) (content : pystr) :
  utf8_decode bytes = Return content ->
  _load (Bytes bytes)
  = for_each load_line (filter (contains EQ) (readlines content)) [].
Proof.
  intros Hd. rewrite (load_bytes bytes content Hd).
  unfold load_text. generalize (@nil (pystr * pystr)).
  induction (readlines content) as [|l lines IH]; intros acc; [reflexivity|].
  simpl. destruct (contains EQ l) eqn:E.
  - simpl. destruct (load_line acc l); simpl; [apply IH | reflexivity].
  - unfold load_line at 1. rewrite E. simpl. apply IH.
Qed.

Lemma load_skips_lines_without_separator_witness :
  _load (Bytes edited_store)
  = for_each load_line (filter (contains EQ) (readlines edited_store)) [].
Proof.
  apply (load_skips_lines_without_separator edited_store edited_store).
  vm_compute. reflexivity.
Defined.

(** X3. When a path occurs on several lines of the checksum file,
    [_load] keeps the fingerprint of the last of them; a path on no line
    has no entry. *)
Theorem load_last_occurrence_wins (bytes : list N) (content : pystr) :
  utf8_decode bytes = Return content ->
  exists old,
    _load (Bytes bytes) = Return old
    /\ forall path, dict_get path old = last_value path (entries content).
Proof.
  intros Hd. rewrite (load_bytes bytes content Hd).
  eexists. split; [apply load_entries|].
  intros path. rewrite dict_get_fold.
  now destruct (last_value path (entries content)).
Qed.

Lemma load_last_occurrence_wins_witness :
  exists old,
    _load (Bytes edited_store) = Return old
    /\ forall path, dict_get path old = last_value path (entries edited_store).
Proof.
  apply (load_last_occurrence_wins edited_store edited_store).
  vm_compute. reflexivity.
Defined.

(** X4. What [_load] has read, [save] writes in a form that [_load]
    reads back as the same mapping: loading, saving and loading again
    gives what the first load gave. *)
Theorem load_save_load (file : file_state) (old : dict)
    (self : ChecksumTracker) (dest : file_state) :
  _load file = Return old ->
  new_checksums self = old ->
  fst (save NoFault self dest) = Return tt
  /\ _load (snd (save NoFault self dest)) = Return old.
Proof.
  intros Hl Hn.
  destruct (load_shape file old Hl) as (Hnd & Hp & Henc).
  destruct (utf8_encode_ok _ (encodable_store_text _ Henc)) as (bytes & Hb).
  rewrite <- Hn in Hb.
  rewrite (save_no_fault self dest bytes Hb). cbn [fst snd].
  split; [reflexivity|].
  rewrite Hn in Hb. rewrite (load_encoded _ bytes Hb).
  now apply load_store_text.
Qed.

Lemma load_save_load_witness :
  fst (save NoFault
         {| old_checksums := [];
            new_checksums := [(str "x ", str " y =z");
                              (str "a.txt", Samples.md5_of_empty)] |}
         Missing) = Return tt
  /\ _load (snd (save NoFault
                   {| old_checksums := [];
                      new_checksums := [(str "x ", str " y =z");
                                        (str "a.txt", Samples.md5_of_empty)] |}
                   Missing))
     = Return [(str "x ", str " y =z"); (str "a.txt", Samples.md5_of_empty)].
Proof.
  apply (load_save_load (Bytes edited_store)).
  - vm_compute. reflexivity.
  - reflexivity.
Defined.

(* ================================================================= *)
(** ** The configuration *)

Lemma unset_false env var :
  unset env var = false -> exists v, env var = Some v /\ v <> [].
Proof.
  unfold unset. destruct (env var) as [[|c v]|]; try discriminate.
  intros _. eexists. split; [reflexivity | discriminate].
Qed.

Lemma get_config_complete env :
  filter (unset env) required = [] -> exists config, get_config env = Return config.
Proof.
  intros H. unfold get_config. rewrite H.
  assert (Hall : forall var, In var required -> exists v, env var = Some v).
  { intros var Hin.
    destruct (unset env var) eqn:E.
    - assert (Hf : In var (filter (unset env) required))
        by (apply filter_In; now split).
      rewrite H in Hf. destruct Hf.
    - destruct (unset_false env var E) as (v & Hv & _). eauto. }
  unfold environ_item.
  destruct (Hall (str "GITHUB_REPO")) as (v1 & ->); [simpl; tauto|].
  destruct (Hall (str "GITHUB_PAT")) as (v2 & ->); [simpl; tauto|].
  destruct (Hall (str "DATABRICKS_HOST")) as (v3 & ->); [simpl; tauto|].
  destruct (Hall (str "DATABRICKS_TOKEN")) as (v4 & ->); [simpl; tauto|].
  cbn [bind]. eauto.
Qed.

(** X5. [get_config] returns a configuration exactly when each of the
    four required variables is set to a non-empty value; otherwise it
    raises [EnvironmentError] (an [OSError]), never a [KeyError]. *)
Theorem get_config_required (env : pystr -> option pystr) :
  ((exists config, get_config env = Return config) <->
   (forall var, In var required -> exists v, env var = Some v /\ v <> []))
  /\ ((forall config, get_config env <> Return config) ->
      get_config env = Raise OSError).
Proof.
  split; [split|].
  - intros (config & Hc) var Hin.
    destruct (unset env var) eqn:E; [|now apply unset_false].
    assert (Hf : filter (unset env) required <> []).
    { intros Hnil.
      assert (Hv : In var (filter (unset env) required))
        by (apply filter_In; now split).
      rewrite Hnil in Hv. destruct Hv. }
    rewrite (get_config_missing env Hf) in Hc. discriminate Hc.
  - intros Hall. apply get_config_complete.
    destruct (filter (unset env) required) as [|var l] eqn:E; [reflexivity|].
    assert (Hv : In var (filter (unset env) required)) by (rewrite E; now left).
    apply filter_In in Hv as (Hin & Hu).
    destruct (Hall var Hin) as (v & Hv & Hne).
    unfold unset in Hu. rewrite Hv in Hu. destruct v; [congruence|discriminate].
  - intros Hno.
    destruct (filter (unset env) required) as [|var l] eqn:E.
    + destruct (get_config_complete env E) as (config & Hc).
      now destruct (Hno config).
    + apply get_config_missing. rewrite E. discriminate.
Qed.

Lemma get_config_agree env1 env2 :
  (forall var, In var config_variables -> env1 var = env2 var) ->
  get_config env1 = get_config env2.
Proof.
  intros H. unfold get_config.
  assert (Hf : filter (unset env1) required = filter (unset env2) required).
  { apply filter_ext_in. intros var Hin. unfold unset.
    rewrite (H var); [reflexivity|].
    unfold config_variables. apply in_or_app. now left. }
  rewrite Hf. unfold environ_item, environ_get.
  rewrite !(H (str "GITHUB_REPO")), !(H (str "GITHUB_PAT")),
    !(H (str "DATABRICKS_HOST")), !(H (str "DATABRICKS_TOKEN")),
    !(H (str "BRANCH_NAME")), !(H (str "LOCAL_FOLDER")),
    !(H (str "VOLUME_PATH")), !(H (str "LOG_DIR"));
    try reflexivity;
    unfold config_variables, required; simpl; tauto.
Qed.

(** X6. [get_config] does not read [DBFS_PATH], the destination
    variable that the docstring of the script announces: two environments
    that differ in nothing else give the same result (the destination
    comes from [VOLUME_PATH]). *)
Theorem get_config_ignores_DBFS_PATH (env1 env2 : pystr -> option pystr) :
  (forall var, var <> str "DBFS_PATH" -> env1 var = env2 var) ->
  get_config env1 = get_config env2.
Proof.
  intros H. apply get_config_agree. intros var Hin. apply H.
  intros ->. vm_compute in Hin.
  repeat (destruct Hin as [Hin|Hin]; [discriminate Hin|]). exact Hin.
Qed.

Lemma get_config_ignores_DBFS_PATH_witness :
  get_config Samples.env = get_config env_with_dbfs_path.
Proof.
  apply (get_config_ignores_DBFS_PATH Samples.env env_with_dbfs_path).
  intros var Hne. unfold env_with_dbfs_path.
  destruct (pystr_eqb var (str "DBFS_PATH")) eqn:E; [|reflexivity].
  apply pystr_eqb_eq in E. contradiction.
Defined.

(* ================================================================= *)
(** ** The address of an upload *)

Lemma rstrip_slash_app s n : rstrip_slash (s ++ repeat SLASH n) = rstrip_slash s.
Proof.
  unfold rstrip_slash. rewrite rev_app_distr, rev_repeat. f_equal.
  induction n as [|n IH]; [reflexivity | exact IH].
Qed.

Lemma rstrip_slash_end s x : rstrip_slash s <> x ++ [SLASH].
Proof.
  unfold rstrip_slash. intros H.
  apply (f_equal (@rev N)) in H. rewrite rev_involutive, rev_unit in H.
  induction (rev s) as [|c r IH]; [discriminate H|].
  simpl in H. destruct (N.eqb_spec c SLASH) as [E|E]; [exact (IH H)|].
  congruence.
Qed.

(** X7. The uploader drops the slashes that end the volume path, so
    that the address of an upload has exactly one slash between the volume
    path and the relative path, however many the configured path ends
    with. *)
Theorem upload_url_trailing_slashes (h t v path : pystr) (n : nat) :
  upload_url (DatabricksUploader_init h t (v ++ repeat SLASH n)) path
  = upload_url (DatabricksUploader_init h t v) path
  /\ (forall x, uploader_volume_path (DatabricksUploader_init h t v)
                <> x ++ [SLASH])
  /\ upload_url (DatabricksUploader_init h t v) path
     = h ++ str "/api/2.0/fs/files" ++ rstrip_slash v ++ [SLASH] ++ path.
Proof.
  unfold upload_url, DatabricksUploader_init. cbn [host uploader_volume_path].
  rewrite rstrip_slash_app. repeat split.
  intros x. apply rstrip_slash_end.
Qed.

(* ================================================================= *)
(** ** [git_sync] *)

(** What the handler of [git_sync] makes of the outcome of its body. *)
Lemma git_sync_handler (r : result unit) :
  try_except_as (r ;;; Return true) is_CalledProcessError
    (fun e => match e with
              | CalledProcessError ((_ :: _) as stderr) =>
                  utf8_decode stderr ;;; Return false
              | _ => Return false
              end)
  = match r with
    | Return _ => Return true
    | Raise (CalledProcessError []) => Return false
    | Raise (CalledProcessError ((_ :: _) as stderr)) =>
        match utf8_decode stderr with
        | Return _ => Return false
        | Raise _ => Raise UnicodeDecodeError
        end
    | Raise e => Raise e
    end.
Proof.
  destruct r as [[]|e]; [reflexivity|].
  destruct e as [| | | | |stderr| | |]; try reflexivity.
  destruct stderr as [|b stderr]; [reflexivity|].
  cbn [bind try_except_as is_CalledProcessError].
  destruct (utf8_decode (b :: stderr)) as [text|e] eqn:Ed; [reflexivity|].
  cbn [bind]. now rewrite (utf8_decode_raises _ _ Ed).
Qed.

Lemma git_sync_body w config :
  (if folder_exists w then
     subprocess_run w (nth 0 (git_commands w config) []) ;;;
     subprocess_run w (nth 1 (git_commands w config) []) ;;;
     subprocess_run w (nth 2 (git_commands w config) [])
   else
     subprocess_run w (nth 0 (git_commands w config) []))
  = match first_error w (git_commands w config) with
    | None => Return tt
    | Some e => Raise e
    end.
Proof.
  unfold git_commands. destruct (folder_exists w); cbn [nth first_error].
  - destruct (subprocess_run w _) as [[]|e1]; [|reflexivity].
    cbn [bind].
    destruct (subprocess_run w _) as [[]|e2]; [|reflexivity].
    cbn [bind].
    destruct (subprocess_run w _) as [[]|e3]; reflexivity.
  - destruct (subprocess_run w _) as [[]|e1]; reflexivity.
Qed.

Lemma git_sync_unfold w config :
  git_sync w config
  = try_except_as
      ((if folder_exists w then
          subprocess_run w (nth 0 (git_commands w config) []) ;;;
          subprocess_run w (nth 1 (git_commands w config) []) ;;;
          subprocess_run w (nth 2 (git_commands w config) [])
        else
          subprocess_run w (nth 0 (git_commands w config) [])) ;;;
       Return true)
      is_CalledProcessError
      (fun e => match e with
                | CalledProcessError ((_ :: _) as stderr) =>
                    utf8_decode stderr ;;; Return false
                | _ => Return false
                end).
Proof.
  unfold git_sync, git_commands. destruct (folder_exists w); reflexivity.
Qed.

(** X8. [git_sync] runs the commands of its branch in order (set-url,
    fetch, reset on an existing folder, one clone otherwise) and stops at
    the first that raises.  It returns true when none raises.  When the
    first error is a [CalledProcessError], it returns false if the captured
    error output is empty or is UTF-8, and raises [UnicodeDecodeError] if it
    is not (the handler decodes it for the log).  It lets any other error
    through; so it never raises a [CalledProcessError]. *)
Theorem git_sync_outcome (w : World) (config : Config) :
  git_sync w config
  = match first_error w (git_commands w config) with
    | None => Return true
    | Some (CalledProcessError []) => Return false
    | Some (CalledProcessError ((_ :: _) as stderr)) =>
        match utf8_decode stderr with
        | Return _ => Return false
        | Raise _ => Raise UnicodeDecodeError
        end
    | Some e => Raise e
    end
  /\ (forall e, git_sync w config = Raise e -> is_CalledProcessError e = false)
  /\ length (git_commands w config) = (if folder_exists w then 3 else 1).
Proof.
  assert (H : git_sync w config
              = match first_error w (git_commands w config) with
                | None => Return true
                | Some (CalledProcessError []) => Return false
                | Some (CalledProcessError ((_ :: _) as stderr)) =>
                    match utf8_decode stderr with
                    | Return _ => Return false
                    | Raise _ => Raise UnicodeDecodeError
                    end
                | Some e => Raise e
                end).
  { rewrite git_sync_unfold, git_sync_body, git_sync_handler.
    now destruct (first_error w (git_commands w config)) as [e|]. }
  split; [exact H|split].
  - intros e. rewrite H.
    destruct (first_error w (git_commands w config)) as [e'|]; [|discriminate].
    destruct e' as [| | | | |stderr| | |]; try (intros [= <-]; reflexivity).
    destruct stderr as [|b stderr]; [discriminate|].
    destruct (utf8_decode (b :: stderr)); [discriminate|].
    now intros [= <-].
  - unfold git_commands. now destruct (folder_exists w).
Qed.

(** An error output that is not UTF-8 ends the run on the error of the
    handler. *)
Example git_sync_undecodable_stderr :
  git_sync git_fails Samples.config = Return false
  /\ git_sync git_fails_latin1 Samples.config = Raise UnicodeDecodeError
  /\ status (main git_fails_latin1) = Uncaught UnicodeDecodeError.
Proof. repeat split; vm_compute; reflexivity. Qed.

(* ================================================================= *)
(** ** [upload_file] *)

Lemma upload_file_cases w self file path :
  upload_file w self file path
  = match read_for_upload file with
    | Raise e => if is_RequestException e then Return false else Raise e
    | Return content =>
        match requests_put w (upload_url self path) (token self) content with
        | Raise e => if is_RequestException e then Return false else Raise e
        | Return status_code =>
            if ((400 <=? status_code) && (status_code <? 600))%Z
            then Return false else Return true
        end
    end.
Proof.
  assert (U : upload_file w self file path
              = try_except
                  (file_content <- read_for_upload file ;;
                   response <- requests_put w (upload_url self path)
                                            (token self) file_content ;;
                   raise_for_status response ;;;
                   Return true)
                  is_RequestException (Return false)) by reflexivity.
  rewrite U. unfold raise_for_status.
  destruct (read_for_upload file) as [content|e]; cbn [bind try_except];
    [|reflexivity].
  destruct (requests_put w (upload_url self path) (token self) content)
    as [sc|e]; cbn [bind try_except]; [|reflexivity].
  now destruct ((400 <=? sc) && (sc <? 600))%Z.
Qed.

(** X9. [upload_file] returns true only when the local file was read
    and the request for its content was answered with a status outside
    400..599, and it does so whenever that is the case; an exception that
    leaves it is never a [requests.RequestException]. *)
Theorem upload_file_success (w : World) (self : DatabricksUploader)
    (file : Entry) (path : pystr) :
  (upload_file w self file path = Return true <->
   exists content status_code,
     read_for_upload file = Return content
     /\ requests_put w (upload_url self path) (token self) content
        = Return status_code
     /\ ~ (400 <= status_code < 600)%Z)
  /\ (forall e, upload_file w self file path = Raise e ->
                is_RequestException e = false).
Proof.
  rewrite upload_file_cases. split; [split|].
  - destruct (read_for_upload file) as [content|e].
    + destruct (requests_put w (upload_url self path) (token self) content)
        as [sc|e] eqn:Hp.
      * destruct ((400 <=? sc) && (sc <? 600))%Z eqn:E; [discriminate|].
        intros _. exists content, sc.
        split; [reflexivity|split; [exact Hp|]].
        apply andb_false_iff in E. intros (H1 & H2).
        destruct E as [E|E]; [apply Z.leb_gt in E | apply Z.ltb_ge in E]; lia.
      * destruct (is_RequestException e); discriminate.
    + destruct (is_RequestException e); discriminate.
  - intros (content & sc & -> & -> & Hs).
    replace ((400 <=? sc) && (sc <? 600))%Z with false; [reflexivity|].
    symmetry. apply andb_false_iff.
    destruct (Z.leb_spec 400 sc); [right; apply Z.ltb_ge; lia | now left].
  - intros e.
    destruct (read_for_upload file) as [content|e'].
    + destruct (requests_put w (upload_url self path) (token self) content)
        as [sc|e''].
      * destruct ((400 <=? sc) && (sc <? 600))%Z; discriminate.
      * destruct (is_RequestException e'') eqn:E; [discriminate|].
        now intros [= <-].
    + destruct (is_RequestException e') eqn:E; [discriminate|].
      now intros [= <-].
Qed.

(* ================================================================= *)
(** ** What the walk leaves out and what it counts *)



(** X11. In a run that reports its counters, [uploaded] is the number
    of visited files that differ from the previous mapping and whose
    upload returned true, [failed] the number of those whose upload
    returned false, and [skipped] the number of visited files that do not
    differ from the previous mapping. *)
Theorem counters_exact (w : World) (config : Config) (c : Counters) :
  get_config (environ w) = Return config ->
  summary (main w) = Some c ->
  let old := loaded (checksum_file w) in
  let u := uploader_of config in
  uploaded c = count (goes_to_uploaded w config u old) (rglob w)
  /\ skipped c = count (goes_to_skipped config old) (rglob w)
  /\ failed c = count (goes_to_failed w config u old) (rglob w).
Proof.
  intros Hc Hs.
  destruct (main_summary w config c Hc Hs) as (st & _ & Hw & _ & -> & _).
  unfold the_walk in Hw.
  destruct (walk_completed w config _ _ _ _ Hw) as (H1 & H2 & H3 & _).
  simpl in H1, H2, H3. repeat split; assumption.
Qed.

Lemma counters_exact_witness :
  let old := loaded (checksum_file network_down) in
  let u := uploader_of Samples.config in
  0%Z = count (goes_to_uploaded network_down Samples.config u old)
              (rglob network_down)
  /\ 1%Z = count (goes_to_skipped Samples.config old) (rglob network_down)
  /\ 1%Z = count (goes_to_failed network_down Samples.config u old)
                 (rglob network_down).
Proof.
  apply (counters_exact network_down Samples.config
           {| uploaded := 0; skipped := 1; failed := 1 |}).
  - vm_compute. reflexivity.
  - vm_compute. reflexivity.
Defined.

Lemma count_none p files :
  (forall f, In f files -> p f = false) -> count p files = 0%Z.
Proof.
  intros H. unfold count.
  replace (filter p files) with (@nil Entry); [reflexivity|].
  symmetry. induction files as [|f rest IH]; [reflexivity|].
  simpl. rewrite (H f (or_introl eq_refl)). apply IH.
  intros g Hg. apply H. now right.
Qed.

(** X12. With nothing in the previous mapping (no checksum file yet, or
    one without any line that has '='), a run that reports its counters
    skipped no file: every visited file was sent, and counted in
    [uploaded] or in [failed]. *)
Theorem first_run_skips_nothing (w : World) (config : Config) (c : Counters) :
  get_config (environ w) = Return config ->
  summary (main w) = Some c ->
  loaded (checksum_file w) = [] ->
  skipped c = 0%Z
  /\ (uploaded c + failed c
      = Z.of_nat (length (filter (visited config) (rglob w))))%Z.
Proof.
  intros Hc Hs Hold.
  destruct (main_summary w config c Hc Hs) as (st & _ & Hw & _ & -> & _).
  unfold the_walk in Hw.
  destruct (walk_completed w config _ _ _ _ Hw) as (_ & H2 & _).
  pose proof (walk_total w config _ _ _ _ Hw) as Ht.
  simpl in H2, Ht. rewrite Hold in H2.
  assert (Hz : skipped (counts st) = 0%Z).
  { rewrite H2. apply count_none. intros f _.
    unfold goes_to_skipped, is_changed, differs. simpl.
    now rewrite andb_false_r. }
  unfold total in Ht. simpl in Ht. split; [exact Hz | lia].
Qed.

Lemma first_run_skips_nothing_witness :
  0%Z = 0%Z
  /\ (1 + 0
      = Z.of_nat (length (filter (visited Samples.config)
                                 (rglob (first_run "a.txt")))))%Z.
Proof.
  apply (first_run_skips_nothing (first_run "a.txt") Samples.config
           {| uploaded := 1; skipped := 0; failed := 0 |}).
  - vm_compute. reflexivity.
  - vm_compute. reflexivity.
  - reflexivity.
Defined.

(** X13. The store a completed run writes is made from the visited
    files alone: one line [path=fingerprint], ended by a line feed and
    encoded in UTF-8, per relative path, in the order the paths were first
    met, with the fingerprint of the content read; neither the previous
    store nor the outcome of the uploads goes into it. *)
Theorem written_store (w : World) (config : Config) (c : Counters) :
  get_config (environ w) = Return config ->
  summary (main w) = Some c ->
  exists bytes,
    utf8_encode
      (concat (map (fun item : pystr * pystr =>
                      fst item ++ [61%N] ++ snd item ++ [10%N])
                   (record_all config (rglob w) [])))
    = Return bytes
    /\ file_after (main w) = Bytes bytes.
Proof.
  intros Hc Hs.
  destruct (main_summary w config c Hc Hs)
    as (st & _ & Hw & _ & _ & _ & Hf & _ & Henc).
  unfold the_walk in Hw.
  destruct (walk_completed w config _ _ _ _ Hw) as (_ & _ & _ & H4).
  simpl in H4. rewrite H4 in Henc, Hf.
  exists (store_bytes (record_all config (rglob w) [])).
  split; [exact Henc | exact Hf].
Qed.

Lemma written_store_witness :
  exists bytes,
    utf8_encode
      (concat (map (fun item : pystr * pystr =>
                      fst item ++ [61%N] ++ snd item ++ [10%N])
                   (record_all Samples.config (rglob network_down) [])))
    = Return bytes
    /\ file_after (main network_down) = Bytes bytes.
Proof.
  apply (written_store network_down Samples.config
           {| uploaded := 0; skipped := 1; failed := 1 |}).
  - vm_compute. reflexivity.
  - vm_compute. reflexivity.
Defined.

(** The store that [network_down] leaves, byte for byte. *)
Example written_store_sample :
  file_after (main network_down)
  = Bytes (str "a.txt=" ++ Samples.md5_of_empty ++ Samples.nl
           ++ str "b.txt=" ++ Samples.md5_of_hi ++ Samples.nl).
Proof. vm_compute. reflexivity. Qed.

(** X14. The checksum file is written only at the end: when a run
    leaves the file different from what it found, the configuration was
    complete, logging was set up, [git_sync] returned true, the file was
    missing or could be read, the walk went through all the entries without
    an error, and the file could be opened for writing. *)
Theorem store_touched_only_after_walk (w : World) :
  file_after (main w) <> checksum_file w ->
  exists config st,
    reaches_loop w config
    /\ the_walk w config = (Return tt, st)
    /\ save_fault w <> OpenFails.
Proof.
  intros H.
  destruct (get_config (environ w)) as [config|e] eqn:Hc.
  2:{ exfalso. apply H. unfold main. rewrite Hc.
      now destruct (is_EnvironmentError e). }
  destruct (mkdir_log_dir w) as [[]|e] eqn:Hl.
  2:{ exfalso. apply H. unfold main, setup_logging. now rewrite Hc, Hl. }
  destruct (git_sync w config) as [[|]|e] eqn:Hg.
  2,3: exfalso; apply H; unfold main, setup_logging; now rewrite Hc, Hl, Hg.
  destruct (_load (checksum_file w)) as [old|e] eqn:Ht.
  2:{ exfalso. apply H. unfold main, setup_logging, ChecksumTracker_init.
      now rewrite Hc, Hl, Hg, Ht. }
  assert (Hreach : reaches_loop w config).
  { repeat split; try assumption. now apply (loaded_returns _ old). }
  rewrite (main_loop w config Hreach) in H.
  destruct (the_walk w config) as [[[]|e] st] eqn:Hw.
  2:{ exfalso. now apply H. }
  exists config, st. split; [exact Hreach|]. split; [exact Hw|].
  intros Hf. apply H. rewrite Hf. reflexivity.
Qed.

Lemma store_touched_only_after_walk_witness :
  exists config st,
    reaches_loop scenario config
    /\ the_walk scenario config = (Return tt, st)
    /\ save_fault scenario <> OpenFails.
Proof.
  apply (store_touched_only_after_walk scenario).
  vm_compute. discriminate.
Defined.

(* ================================================================= *)
(** ** Recording twice *)

Lemma dict_set_overwrite k v1 v2 d :
  dict_set k v2 (dict_set k v1 d) = dict_set k v2 d.
Proof.
  induction d as [|[k' v'] d IH]; simpl.
  - destruct (pystr_eq_dec k k); congruence.
  - destruct (pystr_eq_dec k' k) as [E|E]; simpl;
      destruct (pystr_eq_dec k' k); congruence.
Qed.

(** X15. Calling [has_changed] again for a path replaces the pending
    fingerprint and leaves the path at its place: after two calls the
    tracker is as after the second alone, and the second call answers as
    it would have without the first (the answer depends on the previous
    mapping only, never on what was recorded in this run). *)
Theorem has_changed_twice (self : ChecksumTracker) (path c1 c2 : pystr) :
  has_changed (fst (has_changed self path c1)) path c2
  = has_changed self path c2.
Proof.
  unfold has_changed. simpl. now rewrite dict_set_overwrite.
Qed.

(* ================================================================= *)
(** ** The form of a fingerprint *)

Lemma le_bytes_length n : forall x, length (MD5.le_bytes n x) = n.
Proof. induction n as [|n IH]; intros x; simpl; [reflexivity | now rewrite IH]. Qed.

Lemma digest_length content : length (MD5.digest content) = 16.
Proof.
  unfold MD5.digest.
  destruct (MD5.chunks _ _ _) as [[[a b] c] d].
  now rewrite !length_app, !le_bytes_length.
Qed.

Lemma hexdigest_length content : length (MD5.hexdigest content) = 32.
Proof.
  unfold MD5.hexdigest.
  assert (H : forall l, length (flat_map MD5.hexbyte l) = 2 * length l).
  { induction l as [|x l IH]; [reflexivity|]. simpl. rewrite IH. lia. }
  now rewrite H, digest_length.
Qed.

(** X16. The fingerprint [get_checksum] returns for a file that can be
    read is made of 32 lower-case hexadecimal digits; for a file that
    cannot be read, the error of the read comes out of [get_checksum]. *)
Theorem get_checksum_form (read : result (list byte)) :
  (forall c, get_checksum read = Return c ->
             length c = 32
             /\ Forall (fun ch => In ch (str "0123456789abcdef")) c)
  /\ (forall e, read = Raise e -> get_checksum read = Raise e).
Proof.
  split.
  - intros c. unfold get_checksum.
    destruct read as [content|e]; simpl; [|discriminate].
    intros [= <-]. split; [apply hexdigest_length|].
    apply Forall_forall. intros ch H. unfold MD5.hexdigest in H.
    apply in_flat_map in H as (x & _ & Hx). unfold MD5.hexbyte in Hx.
    destruct Hx as [<-|[<-|[]]]; apply hexdigit_hex.
  - intros e ->. reflexivity.
Qed.

(* ================================================================= *)
(** ** The run after a failed upload *)

Lemma visit_unchanged w config u st file c :
  visited config file = true ->
  get_checksum (read_for_checksum file) = Return c ->
  differs (old_checksums (tracker st)) (relative_path file) c = false ->
  visit w config u st file
  = (Return tt,
     {| tracker := recorded (tracker st) (relative_path file) c;
        counts := bump_skipped (counts st) |}).
Proof.
  intros Hv Hc Hd.
  pose proof (visit_cases w config u st file) as Hcase.
  inversion Hcase as [Hv' E | e Hv' Hr E | c' Hv' Hr Hd' E | c' Hv' Hr Hd' Hu' E
                      | c' Hv' Hr Hd' Hu' E | c' e Hv' Hr Hd' Hu' E];
    congruence.
Qed.

(** X17. A failed upload is not tried again by the next run: when a
    run completes with a file whose upload returned false (so with exit
    code 1), the store it wrote holds the fingerprint of that file, and a
    later run that starts from this store and finds the file with the same
    content skips it. (For relative paths that the store file can hold,
    each met once.) *)
Theorem failed_upload_not_retried (w : World) (config : Config)
    (c : Counters) (file : Entry) (checksum : pystr) :
  get_config (environ w) = Return config ->
  summary (main w) = Some c ->
  NoDup (visited_paths config (rglob w)) ->
  Forall path_parses (visited_paths config (rglob w)) ->
  In file (rglob w) ->
  visited config file = true ->
  get_checksum (read_for_checksum file) = Return checksum ->
  differs (loaded (checksum_file w)) (relative_path file) checksum = true ->
  upload_file w (uploader_of config) file (relative_path file) = Return false ->
  exit_code (status (main w)) = 1%Z
  /\ differs (loaded (file_after (main w))) (relative_path file) checksum = false
  /\ (forall w2 u2 st2,
        old_checksums (tracker st2) = loaded (file_after (main w)) ->
        visit w2 config u2 st2 file
        = (Return tt,
           {| tracker := recorded (tracker st2) (relative_path file) checksum;
              counts := bump_skipped (counts st2) |})).
Proof.
  intros Hc Hs Hnd Hparse Hin Hv Hsum Hd Hu.
  destruct (store_reads_back w config c Hc Hs Hparse)
    as (st & Hw & _ & _ & Hback).
  destruct (main_summary w config c Hc Hs)
    as (st' & _ & Hw' & _ & _ & _ & _ & Hst & _).
  assert (st' = st) by congruence. subst st'. clear Hw'.
  unfold the_walk in Hw.
  pose proof (walk_get w config _ _ _ _ Hw Hnd file checksum Hin Hv Hsum) as Hget.
  pose proof (walk_failed w config _ _ _ _ Hw file checksum Hin Hv Hsum Hd Hu)
    as Hlt.
  simpl in Hlt.
  assert (Hsame : differs (loaded (file_after (main w))) (relative_path file)
                          checksum = false).
  { unfold differs. rewrite Hback, Hget. now rewrite pystr_eqb_refl. }
  split; [|split].
  - rewrite Hst.
    replace (failed (counts st) >? 0)%Z with true; [reflexivity|].
    symmetry. apply Z.gtb_lt. exact Hlt.
  - exact Hsame.
  - intros w2 u2 st2 Hold. apply visit_unchanged; try assumption.
    now rewrite Hold.
Qed.

Lemma failed_upload_not_retried_witness :
  exit_code (status (main network_down)) = 1%Z
  /\ differs (loaded (file_after (main network_down)))
             (relative_path (Samples.file "b.txt" "hi")) Samples.md5_of_hi
     = false
  /\ (forall w2 u2 st2,
        old_checksums (tracker st2) = loaded (file_after (main network_down)) ->
        visit w2 Samples.config u2 st2 (Samples.file "b.txt" "hi")
        = (Return tt,
           {| tracker := recorded (tracker st2)
                           (relative_path (Samples.file "b.txt" "hi"))
                           Samples.md5_of_hi;
              counts := bump_skipped (counts st2) |})).
Proof.
  apply (failed_upload_not_retried network_down Samples.config
           {| uploaded := 0; skipped := 1; failed := 1 |}
           (Samples.file "b.txt" "hi") Samples.md5_of_hi).
  - vm_compute. reflexivity.
  - vm_compute. reflexivity.
  - nodup_strings.
  - constructor; [|constructor; [|constructor]];
      repeat split; not_in_string.
  - simpl. right. left. reflexivity.
  - vm_compute. reflexivity.
  - vm_compute. reflexivity.
  - vm_compute. reflexivity.
  - vm_compute. reflexivity.
Defined.

(** The run after [network_down] uploads nothing and exits with 0. *)
Example network_back_run :
  summary (main network_back)
  = Some {| uploaded := 0; skipped := 2; failed := 0 |}
  /\ status (main network_back) = Exit 0.
Proof. split; vm_compute; reflexivity. Qed.

(* ================================================================= *)
(** ** A local folder inside [.git] *)




(* ================================================================= *)
(** ** The order of the enumeration *)

Section Order.

Variables (w : World) (config : Config) (u : DatabricksUploader).

Lemma walk_returns_passes files : forall st st',
  walk w config u files st = (Return tt, st') ->
  Forall (fun f => passes w config u (old_checksums (tracker st)) f = true)
         files.
Proof.
  induction files as [|f rest IH]; intros st st' H; [constructor|].
  rewrite walk_cons in H.
  pose proof (visit_cases w config u st f) as Hcase.
  destruct (visit w config u st f) as [r st1].
  inversion Hcase as [Hv | e Hv Hr | c Hv Hr Hd | c Hv Hr Hd Hu
                      | c Hv Hr Hd Hu | c e Hv Hr Hd Hu]; subst r st1;
    try discriminate H;
    (constructor; [|exact (IH _ _ H)]);
    unfold passes; rewrite Hv; try rewrite Hr; try rewrite Hd;
    try rewrite Hu; reflexivity.
Qed.

Lemma passes_walk_returns files : forall st,
  Forall (fun f => passes w config u (old_checksums (tracker st)) f = true)
         files ->
  exists st', walk w config u files st = (Return tt, st').
Proof.
  induction files as [|f rest IH]; intros st H; [now exists st|].
  inversion H as [|? ? Hf Hrest]; subst.
  rewrite walk_cons.
  pose proof (visit_cases w config u st f) as Hcase.
  destruct (visit w config u st f) as [r st1].
  unfold passes in Hf.
  inversion Hcase as [Hv | e Hv Hr | c Hv Hr Hd | c Hv Hr Hd Hu
                      | c Hv Hr Hd Hu | c e Hv Hr Hd Hu]; subst r st1;
    rewrite Hv in Hf; try rewrite Hr in Hf; try rewrite Hd in Hf;
    try rewrite Hu in Hf; try discriminate Hf;
    apply IH; exact Hrest.
Qed.

Lemma Permutation_filter_entries (p : Entry -> bool) l l' :
  Permutation l l' -> Permutation (filter p l) (filter p l').
Proof.
  induction 1 as [|x l l' _ IH|x y l|l l' l'' _ IH1 _ IH2]; simpl.
  - constructor.
  - destruct (p x); [now constructor | exact IH].
  - destruct (p x), (p y); try reflexivity. apply perm_swap.
  - now transitivity (filter p l').
Qed.

Lemma count_permutation p l l' : Permutation l l' -> count p l = count p l'.
Proof.
  intros H. unfold count. f_equal.
  apply Permutation_length. now apply Permutation_filter_entries.
Qed.

Lemma visited_paths_permutation l l' :
  Permutation l l' ->
  Permutation (visited_paths config l) (visited_paths config l').
Proof.
  intros H. unfold visited_paths.
  apply Permutation_map. now apply Permutation_filter_entries.
Qed.

Lemma visited_paths_In p files :
  In p (visited_paths config files) ->
  exists f, In f files /\ visited config f = true /\ relative_path f = p.
Proof.
  unfold visited_paths. rewrite in_map_iff.
  intros (f & Hp & Hf). apply filter_In in Hf as (Hin & Hv). eauto.
Qed.

End Order.

(** X19. The order in which the entries are enumerated does not change
    the outcome of the walk: when a walk completes (each relative path
    being met once), the walk over the same entries in any other order
    completes too, with the same counters and the same fingerprint
    recorded for every path. *)
Theorem walk_order_irrelevant (w : World) (config : Config)
    (u : DatabricksUploader) (files1 files2 : list Entry)
    (st st1 : LoopState) :
  Permutation files1 files2 ->
  NoDup (visited_paths config files1) ->
  walk w config u files1 st = (Return tt, st1) ->
  exists st2,
    walk w config u files2 st = (Return tt, st2)
    /\ uploaded (counts st2) = uploaded (counts st1)
    /\ skipped (counts st2) = skipped (counts st1)
    /\ failed (counts st2) = failed (counts st1)
    /\ (forall p, dict_get p (new_checksums (tracker st2))
                  = dict_get p (new_checksums (tracker st1))).
Proof.
  intros Hperm Hnd H1.
  pose proof (walk_returns_passes w config u _ _ _ H1) as Hpass.
  assert (Hpass2 : Forall (fun f => passes w config u
                                      (old_checksums (tracker st)) f = true)
                          files2).
  { rewrite Forall_forall in *. intros f Hf. apply Hpass.
    apply (Permutation_in f (Permutation_sym Hperm) Hf). }
  destruct (passes_walk_returns w config u _ _ Hpass2) as (st2 & H2).
  exists st2. split; [exact H2|].
  destruct (walk_completed w config u _ _ _ H1) as (A1 & B1 & C1 & _).
  destruct (walk_completed w config u _ _ _ H2) as (A2 & B2 & C2 & _).
  cbv zeta in *.
  rewrite A1, A2, B1, B2, C1, C2.
  rewrite !(count_permutation _ _ _ Hperm).
  repeat split; try reflexivity.
  assert (Hnd2 : NoDup (visited_paths config files2)).
  { apply (Permutation_NoDup (visited_paths_permutation config _ _ Hperm) Hnd). }
  intros p.
  destruct (in_dec pystr_eq_dec p (visited_paths config files1)) as [Hin|Hout].
  - destruct (visited_paths_In config p files1 Hin) as (f & Hf & Hv & <-).
    destruct (walk_reads w config u _ _ _ H1 f Hf Hv) as (c & Hc).
    rewrite (walk_get w config u _ _ _ H1 Hnd f c Hf Hv Hc).
    apply (walk_get w config u _ _ _ H2 Hnd2 f c); try assumption.
    apply (Permutation_in f Hperm Hf).
  - rewrite (walk_get_other w config u _ p _ _ _ H1 Hout).
    apply (walk_get_other w config u _ p _ _ _ H2).
    intros Hin. apply Hout.
    apply (Permutation_in p
             (Permutation_sym (visited_paths_permutation config _ _ Hperm)) Hin).
Qed.

Lemma walk_order_irrelevant_witness :
  exists st2,
    walk network_down Samples.config (uploader_of Samples.config)
         [Samples.file "b.txt" "hi"; Samples.file "a.txt" ""]
         (start network_down)
    = (Return tt, st2)
    /\ uploaded (counts st2) = 0%Z
    /\ skipped (counts st2) = 1%Z
    /\ failed (counts st2) = 1%Z
    /\ (forall p, dict_get p (new_checksums (tracker st2))
                  = dict_get p [(str "a.txt", Samples.md5_of_empty);
                                (str "b.txt", Samples.md5_of_hi)]).
Proof.
  apply (walk_order_irrelevant network_down Samples.config
           (uploader_of Samples.config)
           [Samples.file "a.txt" ""; Samples.file "b.txt" "hi"]
           [Samples.file "b.txt" "hi"; Samples.file "a.txt" ""]
           (start network_down)
           {| tracker :=
                {| old_checksums := [(str "a.txt", Samples.md5_of_empty)];
                   new_checksums := [(str "a.txt", Samples.md5_of_empty);
                                     (str "b.txt", Samples.md5_of_hi)] |};
              counts := {| uploaded := 0; skipped := 1; failed := 1 |} |}).
  - apply perm_swap.
  - nodup_strings.
  - vm_compute. reflexivity.
Defined.
